(** * Shellsword: the duel server's session engine

    A shallow embedding of the server part of the repository (the file
    that sets up Express, the WebSocket server and the SQLite database):
    move resolution, the per-game turn state machine, the turn timer, the
    matchmaking queue, the REST handlers for join / move / state /
    practice / exhibition, and start-up recovery from the database.

    Conventions of the embedding:
    - JS numbers that only ever hold integers (turn, distance, scores,
      timestamps) are [Z]; the id counter is [N];
    - [null] and [undefined] are [None]; a request body field is a
      string or absent;
    - [Math.random()], [Date.now()] and [genToken()] are inputs of the
      function that calls them; one clock reading serves a whole event;
    - [games] and [players] (JS [Map]s) are [gmap string _]; a game object
      is identified with the entry registered under its id;
    - [setTimeout] handles are numbers drawn from a counter; Node's timer
      table is a [gmap nat Callback]; [clearTimeout] deletes from it;
    - the event loop is single-threaded: an event (a request or a timeout
      callback) is one function from server state to server state;
    - the two SQL tables are lists of rows in insertion order; the SQL
      statements succeed (the [catch] branch of [saveGameToDB] only logs);
    - output that does not feed back into the state (console logs, the
      WebSocket broadcast, the resolution of long-poll promises, the
      queue webhook) is left out;
    - the rate limiter is a middleware in front of the join and move
      handlers with a table of its own: it is embedded on its own
      ([rateLimit]) and is not part of [step];
    - of the two auto-player clients the move choice is embedded ([pick],
      [chooseMove], [detectDeadlock]), with rational weights standing for
      the JS doubles; their polling loops are not. *)

From Stdlib Require Import ZArith QArith Qround List String Ascii Lia Bool
  DecimalString DecimalPos.
From stdpp Require Import base gmap strings list.
Import ListNotations.

Local Open Scope string_scope.
Local Open Scope list_scope.
Local Open Scope Z_scope.

(** ** Small JS helpers *)

(** [x === 'lit'] where [x] may be [null]. *)
Definition is_move (m : option string) (s : string) : bool :=
  match m with
  | Some x => String.eqb x s
  | None => false
  end.

(** JS truthiness of a string-or-null value: [null], [undefined] and the
    empty string are falsy. *)
Definition truthy (m : option string) : bool :=
  match m with
  | Some "" => false
  | Some _ => true
  | None => false
  end.

(** Template-literal rendering of a string-or-null value. *)
Definition show (m : option string) : string :=
  match m with
  | Some x => x
  | None => "null"
  end.

(** [a < b] on the rationals that stand for JS doubles in [0,1). *)
Definition Qltb (a b : Q) : bool := negb (Qle_bool b a).

(** ** Data model *)

Inductive Phase := input | over.
Inductive PlayerId := P1 | P2.
Inductive Winner := win_p1 | win_p2 | sudden_death.

Record Scores := mkScores { s_p1 : Z; s_p2 : Z }.
Record Moves := mkMoves { m_p1 : option string; m_p2 : option string }.

Record Game := mkGame {
  game_id : string;
  phase : Phase;
  turn : Z;
  distance : Z;
  scores : Scores;
  moves : Moves;
  lastResult : string;
  winner : option Winner;
  p1Name : string;
  p2Name : string;
  turnTimer : option nat;
  moveWaiters : list string;
  maxTurns : option Z;
  botDifficulty : option string;
  botSide : option PlayerId;
  exhibition : bool;
  botP1Difficulty : option string;
  botP2Difficulty : option string;
  p1Token : option string;
  p2Token : option string;
  ex_p1 : option string;
  ex_p2 : option string
}.

Definition set_phase (g : Game) (x : Phase) : Game :=
  mkGame (game_id g) x (turn g) (distance g) (scores g) (moves g)
    (lastResult g) (winner g) (p1Name g) (p2Name g) (turnTimer g)
    (moveWaiters g) (maxTurns g) (botDifficulty g) (botSide g)
    (exhibition g) (botP1Difficulty g) (botP2Difficulty g) (p1Token g)
    (p2Token g) (ex_p1 g) (ex_p2 g).

Definition set_turn (g : Game) (x : Z) : Game :=
  mkGame (game_id g) (phase g) x (distance g) (scores g) (moves g)
    (lastResult g) (winner g) (p1Name g) (p2Name g) (turnTimer g)
    (moveWaiters g) (maxTurns g) (botDifficulty g) (botSide g)
    (exhibition g) (botP1Difficulty g) (botP2Difficulty g) (p1Token g)
    (p2Token g) (ex_p1 g) (ex_p2 g).

Definition set_distance (g : Game) (x : Z) : Game :=
  mkGame (game_id g) (phase g) (turn g) x (scores g) (moves g)
    (lastResult g) (winner g) (p1Name g) (p2Name g) (turnTimer g)
    (moveWaiters g) (maxTurns g) (botDifficulty g) (botSide g)
    (exhibition g) (botP1Difficulty g) (botP2Difficulty g) (p1Token g)
    (p2Token g) (ex_p1 g) (ex_p2 g).

Definition set_scores (g : Game) (x : Scores) : Game :=
  mkGame (game_id g) (phase g) (turn g) (distance g) x (moves g)
    (lastResult g) (winner g) (p1Name g) (p2Name g) (turnTimer g)
    (moveWaiters g) (maxTurns g) (botDifficulty g) (botSide g)
    (exhibition g) (botP1Difficulty g) (botP2Difficulty g) (p1Token g)
    (p2Token g) (ex_p1 g) (ex_p2 g).

Definition set_moves (g : Game) (x : Moves) : Game :=
  mkGame (game_id g) (phase g) (turn g) (distance g) (scores g) x
    (lastResult g) (winner g) (p1Name g) (p2Name g) (turnTimer g)
    (moveWaiters g) (maxTurns g) (botDifficulty g) (botSide g)
    (exhibition g) (botP1Difficulty g) (botP2Difficulty g) (p1Token g)
    (p2Token g) (ex_p1 g) (ex_p2 g).

Definition set_lastResult (g : Game) (x : string) : Game :=
  mkGame (game_id g) (phase g) (turn g) (distance g) (scores g) (moves g)
    x (winner g) (p1Name g) (p2Name g) (turnTimer g)
    (moveWaiters g) (maxTurns g) (botDifficulty g) (botSide g)
    (exhibition g) (botP1Difficulty g) (botP2Difficulty g) (p1Token g)
    (p2Token g) (ex_p1 g) (ex_p2 g).

Definition set_winner (g : Game) (x : option Winner) : Game :=
  mkGame (game_id g) (phase g) (turn g) (distance g) (scores g) (moves g)
    (lastResult g) x (p1Name g) (p2Name g) (turnTimer g)
    (moveWaiters g) (maxTurns g) (botDifficulty g) (botSide g)
    (exhibition g) (botP1Difficulty g) (botP2Difficulty g) (p1Token g)
    (p2Token g) (ex_p1 g) (ex_p2 g).

Definition set_turnTimer (g : Game) (x : option nat) : Game :=
  mkGame (game_id g) (phase g) (turn g) (distance g) (scores g) (moves g)
    (lastResult g) (winner g) (p1Name g) (p2Name g) x
    (moveWaiters g) (maxTurns g) (botDifficulty g) (botSide g)
    (exhibition g) (botP1Difficulty g) (botP2Difficulty g) (p1Token g)
    (p2Token g) (ex_p1 g) (ex_p2 g).

Definition set_moveWaiters (g : Game) (x : list string) : Game :=
  mkGame (game_id g) (phase g) (turn g) (distance g) (scores g) (moves g)
    (lastResult g) (winner g) (p1Name g) (p2Name g) (turnTimer g)
    x (maxTurns g) (botDifficulty g) (botSide g)
    (exhibition g) (botP1Difficulty g) (botP2Difficulty g) (p1Token g)
    (p2Token g) (ex_p1 g) (ex_p2 g).

(** [createGame(id)]: the optional bot / token fields are absent. *)
Definition createGame (id : string) : Game :=
  mkGame id input 0 4 (mkScores 0 0) (mkMoves None None) "" None "" ""
    None [] (Some 30) None None false None None None None None None.

Definition validMoves : list string := ["advance"; "retreat"; "lunge"; "parry"].

Definition validateMove (move : string) : bool :=
  existsb (String.eqb move) validMoves.

(** ** Move resolution ([resolveTurn]) *)

Record Outcome := mkOutcome {
  newDistance : Z;
  result : string;
  scoreP1 : bool;
  scoreP2 : bool
}.

(** The three identical "apply the other player's movement" snippets. *)
Definition applyOther (other : option string) (d : Z) : Z :=
  if is_move other "advance" then Z.max 1 (d - 1)
  else if is_move other "retreat" then Z.min 6 (d + 1)
  else d.

Definition movements (p1Move p2Move : option string) : list string :=
  (if is_move p1Move "advance" then ["P1 advances"] else []) ++
  (if is_move p2Move "advance" then ["P2 advances"] else []) ++
  (if is_move p1Move "retreat" then ["P1 retreats"] else []) ++
  (if is_move p2Move "retreat" then ["P2 retreats"] else []).

Definition distanceChange (p1Move p2Move : option string) : Z :=
  (if is_move p1Move "advance" then -1 else 0) +
  (if is_move p1Move "retreat" then 1 else 0) +
  (if is_move p2Move "advance" then -1 else 0) +
  (if is_move p2Move "retreat" then 1 else 0).

(** The priority chain of [resolveTurn], up to (not including) the score
    update.  [rnd] is the value [Math.random()] returns if it is called. *)
Definition resolveRules (p1Move p2Move : option string) (distance : Z)
    (rnd : Q) : Outcome :=
  if is_move p1Move "lunge" && is_move p2Move "lunge" && (distance =? 1) then
    mkOutcome distance
      "Both fencers lunge simultaneously at close range → DOUBLE HIT!"
      true true
  else if (is_move p1Move "lunge" && is_move p2Move "parry")
          || (is_move p1Move "parry" && is_move p2Move "lunge") then
    if is_move p1Move "lunge" && is_move p2Move "parry" then
      mkOutcome distance "P1 lunges → P2 PARRIES → RIPOSTE! P2 scores."
        false true
    else
      mkOutcome distance "P2 lunges → P1 PARRIES → RIPOSTE! P1 scores."
        true false
  else if is_move p1Move "lunge" || is_move p2Move "lunge" then
    let lunger := if is_move p1Move "lunge" then "P1" else "P2" in
    let other := if is_move p1Move "lunge" then p2Move else p1Move in
    let otherPlayer := if is_move p1Move "lunge" then "P2" else "P1" in
    if distance =? 1 then
      mkOutcome distance
        (lunger +:+ " lunges at close range → HIT! " +:+ lunger +:+ " scores.")
        (is_move p1Move "lunge") (negb (is_move p1Move "lunge"))
    else if distance =? 2 then
      let hit := Qltb rnd (1 # 2) in
      if hit then
        mkOutcome distance
          (lunger +:+ " lunges at medium range → CLOSE HIT! " +:+ lunger
             +:+ " scores.")
          (is_move p1Move "lunge") (negb (is_move p1Move "lunge"))
      else
        mkOutcome (applyOther other distance)
          (lunger +:+ " lunges at medium range → miss! " +:+ otherPlayer
             +:+ " " +:+ show other +:+ ".")
          false false
    else
      mkOutcome (applyOther other (Z.max 1 (distance - 1)))
        (lunger +:+ " lunges at long range → WHIFF! " +:+ lunger
           +:+ " is exposed. " +:+ otherPlayer +:+ " gets free advance.")
        false false
  else if (is_move p1Move "parry" && negb (is_move p2Move "lunge"))
          || (is_move p2Move "parry" && negb (is_move p1Move "lunge")) then
    let parryer := if is_move p1Move "parry" then "P1" else "P2" in
    let other := if is_move p1Move "parry" then p2Move else p1Move in
    let otherPlayer := if is_move p1Move "parry" then "P2" else "P1" in
    mkOutcome (applyOther other distance)
      (parryer +:+ " parries nothing (wasted turn). " +:+ otherPlayer
         +:+ " " +:+ show other +:+ ".")
      false false
  else
    let ms := movements p1Move p2Move in
    let res := match ms with
               | [] => "Both fencers stay in position."
               | _ => String.concat ", " ms +:+ "."
               end in
    let nd := Z.max 1 (Z.min 6 (distance + distanceChange p1Move p2Move)) in
    if is_move p1Move "advance" && is_move p2Move "advance" && (nd <=? 1) then
      mkOutcome 1 "Both fencers advance → CLASH! Distance stays at 1." false false
    else
      mkOutcome nd res false false.

(** [game.turn >= game.maxTurns]; the comparison with [undefined] (an
    exhibition game has no [maxTurns]) is false. *)
Definition turnLimitReached (t : Z) (mx : option Z) : bool :=
  match mx with
  | Some m => m <=? t
  | None => false
  end.

(** "Check win conditions", the tail of [resolveTurn]. *)
Definition checkWin (game : Game) : Game :=
  if (3 <=? s_p1 (scores game)) && (3 <=? s_p2 (scores game)) then
    set_phase (set_winner game (Some sudden_death)) over
  else if 3 <=? s_p1 (scores game) then
    set_phase (set_winner game (Some win_p1)) over
  else if 3 <=? s_p2 (scores game) then
    set_phase (set_winner game (Some win_p2)) over
  else if turnLimitReached (turn game) (maxTurns game) then
    set_phase
      (if s_p2 (scores game) <? s_p1 (scores game) then
         set_winner game (Some win_p1)
       else if s_p1 (scores game) <? s_p2 (scores game) then
         set_winner game (Some win_p2)
       else set_winner game (Some sudden_death))
      over
  else game.

(** [resolveTurn(game)]: mutates the game, returns the narrative. *)
Definition resolveTurn (game : Game) (rnd : Q) : Game * string :=
  let o := resolveRules (m_p1 (moves game)) (m_p2 (moves game))
             (distance game) rnd in
  let game := set_scores game
    (mkScores (if scoreP1 o then s_p1 (scores game) + 1 else s_p1 (scores game))
              (if scoreP2 o then s_p2 (scores game) + 1 else s_p2 (scores game))) in
  let reset := (scoreP1 o || scoreP2 o) && negb (scoreP1 o && scoreP2 o) in
  let newDistance := if reset then 4 else newDistance o in
  let result := if reset then result o +:+ " Distance resets to 4." else result o in
  let game := set_distance game newDistance in
  let game := set_turn game (turn game + 1) in
  let game := set_lastResult game result in
  let game := set_moves game (mkMoves None None) in
  (checkWin game, result).

(** ** Views ([getGameState], [compactState]) *)

Record GameState := mkGameState {
  gs_turn : Z;
  gs_distance : Z;
  gs_score : Z;
  gs_oppScore : Z;
  gs_lastResult : string;
  gs_validMoves : list string;
  gs_phase : Phase;
  gs_winner : option Winner;
  gs_maxTurns : option Z
}.

Definition getGameState (game : Game) (playerId : PlayerId) : GameState :=
  let score := match playerId with
               | P1 => s_p1 (scores game)
               | P2 => s_p2 (scores game)
               end in
  let oppScore := match playerId with
                  | P1 => s_p2 (scores game)
                  | P2 => s_p1 (scores game)
                  end in
  mkGameState (turn game) (distance game) score oppScore (lastResult game)
    validMoves (phase game) (winner game) (maxTurns game).

(** Decimal rendering of a JS integer inside a template literal. *)
Definition show_Z (z : Z) : string := NilZero.string_of_int (Z.to_int z).
Definition show_N (n : N) : string := NilZero.string_of_uint (N.to_uint n).

Definition show_maxTurns (m : option Z) : string :=
  match m with
  | Some z => show_Z z
  | None => "undefined"
  end.

Definition newline : string := String (ascii_of_nat 10) "".

Definition compactState (game : Game) (playerId : PlayerId) : string :=
  let state := getGameState game playerId in
  let head :=
    "SHELLSWORD | Touch " +:+ show_Z (gs_score state) +:+ "-"
      +:+ show_Z (gs_oppScore state) +:+ " | Dist:" +:+ show_Z (gs_distance state)
      +:+ " | Turn " +:+ show_Z (gs_turn state) +:+ "/"
      +:+ show_maxTurns (gs_maxTurns state) in
  let last := if truthy (Some (gs_lastResult state))
              then ["last: " +:+ gs_lastResult state] else [] in
  let valid := "valid: " +:+ String.concat "/" (gs_validMoves state) in
  let fin :=
    match gs_phase state with
    | over =>
        let endMsg :=
          match gs_winner state, playerId with
          | Some win_p1, P1 => "You WIN!"
          | Some win_p2, P2 => "You WIN!"
          | Some sudden_death, _ => "SUDDEN DEATH required!"
          | _, _ => "You lose."
          end in
        ["GAME OVER: " +:+ endMsg]
    | input => []
    end in
  String.concat newline ([head] ++ last ++ [valid] ++ fin).

(** ** Bot AI ([botMove]) *)

(** [r1], [r2]: the first and the second [Math.random()] of the call.
    A missing difficulty takes the parameter's default, ['medium']. *)
Definition botMove (state : GameState) (difficulty : option string)
    (r1 r2 : Q) : option string :=
  let difficulty := match difficulty with Some d => d | None => "medium" end in
  let distance := gs_distance state in
  if String.eqb difficulty "easy" then
    let i := Qfloor (r1 * 4) in
    if i <? 0 then None else nth_error validMoves (Z.to_nat i)
  else if String.eqb difficulty "medium" then
    if distance =? 1 then
      Some (if Qltb r1 (7 # 10) then "lunge" else "parry")
    else if distance =? 2 then
      Some (if Qltb r1 (4 # 10) then "lunge"
            else if Qltb r2 (1 # 2) then "advance" else "parry")
    else
      Some (if Qltb r1 (6 # 10) then "advance" else "retreat")
  else if String.eqb difficulty "hard" then
    if distance =? 1 then
      Some (if Qltb r1 (8 # 10) then "lunge" else "parry")
    else if distance =? 2 then
      if gs_score state <? gs_oppScore state then
        Some (if Qltb r1 (6 # 10) then "lunge" else "advance")
      else
        Some (if Qltb r1 (3 # 10) then "lunge"
              else if Qltb r2 (4 # 10) then "advance" else "parry")
    else
      Some (if Qltb r1 (75 # 100) then "advance" else "retreat")
  else Some "advance".

(** ** Server state *)

Record PlayerInfo := mkPlayerInfo {
  gameId : string;
  playerId : PlayerId;
  pi_name : option string
}.

(** The [ip] of a queue entry: a header or socket address, [undefined]
    when neither is present, [null] when restored from a NULL column. *)
Inductive Origin := ip_undefined | ip_null | ip_str (s : string).

#[global] Instance Origin_eq_dec : EqDecision Origin.
Proof. solve_decision. Defined.

Record QueueEntry := mkQueueEntry {
  q_token : string;
  q_name : string;
  q_ip : Origin;
  q_timestamp : Z
}.

Record Summary := mkSummary {
  c_id : string;
  c_winner : option Winner;
  c_turns : Z;
  c_p1Name : string;
  c_p2Name : string;
  c_finalScore : string;
  c_timestamp : Z
}.

(** The closures handed to [setTimeout].  Each closes over the game
    object that was registered under [gameId] when the timeout was set;
    the model looks the id up again when the callback runs. *)
Inductive Callback :=
| TurnTimeout (gameId : string)
| BotFollowUp (gameId : string)
| ExhibitionTurn (gameId : string).

(** *** The two database tables *)

Record StateJson := mkStateJson {
  j_distance : Z;
  j_scores : Scores;
  j_moves : Moves;
  j_lastResult : string;
  j_maxTurns : option Z;
  j_botDifficulty : option string;
  j_botSide : option PlayerId;
  j_exhibition : bool;
  j_botP1Difficulty : option string;
  j_botP2Difficulty : option string;
  j_p1Token : option string;
  j_p2Token : option string;
  j_p1 : option string;
  j_p2 : option string
}.

Record GameRow := mkGameRow {
  r_id : string;
  r_p1_name : string;
  r_p2_name : string;
  r_state_json : StateJson;
  r_turn : Z;
  r_phase : Phase;
  r_winner : option Winner;
  r_created_at : Z;
  r_updated_at : Z
}.

Record QueueRow := mkQueueRow {
  qr_name : string;
  qr_token : string;
  qr_ip : Origin;
  qr_created_at : Z
}.

Record Server := mkServer {
  games : gmap string Game;
  players : gmap string PlayerInfo;
  queue : list QueueEntry;
  completedGames : list Summary;
  gameIdCounter : N;
  timeouts : gmap nat Callback;
  nextTimer : nat;
  db_games : list GameRow;
  db_queue : list QueueRow
}.

Definition with_games (st : Server) (x : gmap string Game) : Server :=
  mkServer x (players st) (queue st) (completedGames st) (gameIdCounter st)
    (timeouts st) (nextTimer st) (db_games st) (db_queue st).

Definition with_players (st : Server) (x : gmap string PlayerInfo) : Server :=
  mkServer (games st) x (queue st) (completedGames st) (gameIdCounter st)
    (timeouts st) (nextTimer st) (db_games st) (db_queue st).

Definition with_queue (st : Server) (x : list QueueEntry) : Server :=
  mkServer (games st) (players st) x (completedGames st) (gameIdCounter st)
    (timeouts st) (nextTimer st) (db_games st) (db_queue st).

Definition with_completedGames (st : Server) (x : list Summary) : Server :=
  mkServer (games st) (players st) (queue st) x (gameIdCounter st)
    (timeouts st) (nextTimer st) (db_games st) (db_queue st).

Definition with_gameIdCounter (st : Server) (x : N) : Server :=
  mkServer (games st) (players st) (queue st) (completedGames st) x
    (timeouts st) (nextTimer st) (db_games st) (db_queue st).

Definition with_timeouts (st : Server) (x : gmap nat Callback) (n : nat) : Server :=
  mkServer (games st) (players st) (queue st) (completedGames st)
    (gameIdCounter st) x n (db_games st) (db_queue st).

Definition with_db_games (st : Server) (x : list GameRow) : Server :=
  mkServer (games st) (players st) (queue st) (completedGames st)
    (gameIdCounter st) (timeouts st) (nextTimer st) x (db_queue st).

Definition with_db_queue (st : Server) (x : list QueueRow) : Server :=
  mkServer (games st) (players st) (queue st) (completedGames st)
    (gameIdCounter st) (timeouts st) (nextTimer st) (db_games st) x.

Definition TURN_TIMEOUT_MS : Z := 300000.
Definition QUEUE_TIMEOUT_MS : Z := 300000.

(** ** Database helpers *)

Definition stateJson_of (game : Game) : StateJson :=
  mkStateJson (distance game) (scores game) (moves game) (lastResult game)
    (maxTurns game) (botDifficulty game) (botSide game) (exhibition game)
    (botP1Difficulty game) (botP2Difficulty game) (p1Token game)
    (p2Token game) (ex_p1 game) (ex_p2 game).

(** [s || d] on strings. *)
Definition or_default (s d : string) : string :=
  if truthy (Some s) then s else d.

(** [saveGameToDB]: UPDATE the row of this id, INSERT when there is none. *)
Definition saveGameToDB (game : Game) (now : Z) (st : Server) : Server :=
  let json := stateJson_of game in
  let hit := fun r : GameRow => String.eqb (r_id r) (game_id game) in
  if existsb hit (db_games st) then
    with_db_games st
      (map (fun r =>
              if hit r then
                mkGameRow (r_id r) (r_p1_name r) (r_p2_name r) json (turn game)
                  (phase game) (winner game) (r_created_at r) now
              else r)
           (db_games st))
  else
    with_db_games st
      (db_games st ++
       [mkGameRow (game_id game) (or_default (p1Name game) "P1")
          (or_default (p2Name game) "P2") json (turn game) (phase game)
          (winner game) now now]).

(** [loadGameFromDB(row)] *)
Definition loadGameFromDB (row : GameRow) : Game :=
  let state := r_state_json row in
  mkGame (r_id row) (r_phase row) (r_turn row) (j_distance state)
    (j_scores state) (j_moves state) (j_lastResult state) (r_winner row)
    (r_p1_name row) (r_p2_name row) None []
    (match j_maxTurns state with
     | Some m => if m =? 0 then Some 30 else Some m
     | None => Some 30
     end)
    (j_botDifficulty state) (j_botSide state) (j_exhibition state)
    (j_botP1Difficulty state) (j_botP2Difficulty state) (j_p1Token state)
    (j_p2Token state) (j_p1 state) (j_p2 state).

(** [entry.ip || null] *)
Definition ip_or_null (ip : Origin) : Origin :=
  match ip with
  | ip_str s => if truthy (Some s) then ip_str s else ip_null
  | _ => ip_null
  end.

Definition saveQueueToDB (entry : QueueEntry) (st : Server) : Server :=
  with_db_queue st
    (db_queue st ++
     [mkQueueRow (q_name entry) (q_token entry) (ip_or_null (q_ip entry))
        (q_timestamp entry)]).

Definition removeFromQueueDB (token : string) (st : Server) : Server :=
  with_db_queue st
    (List.filter (fun r => negb (String.eqb (qr_token r) token)) (db_queue st)).

(** Stable insertion sort: the row order of an [ORDER BY key]. *)
Fixpoint insert_by {A} (key : A → Z) (x : A) (l : list A) : list A :=
  match l with
  | [] => [x]
  | y :: l' => if key y <=? key x then y :: insert_by key x l' else x :: l
  end.

Definition order_by {A} (key : A → Z) (l : list A) : list A :=
  fold_left (fun acc x => insert_by key x acc) l [].

Definition is_over (p : Phase) : bool :=
  match p with over => true | input => false end.

(** [SELECT * FROM games WHERE phase != 'over' ORDER BY created_at] *)
Definition loadActiveGamesStmt (db : list GameRow) : list GameRow :=
  order_by r_created_at (List.filter (fun r => negb (is_over (r_phase r))) db).

(** [SELECT * FROM queue_entries ORDER BY created_at] *)
Definition loadQueueStmt (db : list QueueRow) : list QueueRow :=
  order_by qr_created_at db.

(** [SELECT * FROM games WHERE phase = 'over' ORDER BY updated_at DESC LIMIT 100] *)
Definition getCompletedGamesStmt (db : list GameRow) : list GameRow :=
  firstn 100
    (order_by (fun r => - r_updated_at r)
       (List.filter (fun r => is_over (r_phase r)) db)).

(** ** Timers, archival, [resolveIfReady] *)

Definition setTimeout (cb : Callback) (st : Server) : nat * Server :=
  (nextTimer st,
   with_timeouts st (<[nextTimer st := cb]> (timeouts st)) (S (nextTimer st))).

Definition clearTimeout (t : nat) (st : Server) : Server :=
  with_timeouts st (delete t (timeouts st)) (nextTimer st).

Definition startTurnTimer (gameId : string) (st : Server) : Server :=
  match games st !! gameId with
  | Some game =>
      match phase game with
      | input =>
          let (t, st) := setTimeout (TurnTimeout gameId) st in
          with_games st (<[gameId := set_turnTimer game (Some t)]> (games st))
      | over => st
      end
  | None => st
  end.

Definition archiveGame (game : Game) (now : Z) (st : Server) : Server :=
  let pushed :=
    completedGames st ++
    [mkSummary (game_id game) (winner game) (turn game)
       (or_default (p1Name game) "P1") (or_default (p2Name game) "P2")
       (show_Z (s_p1 (scores game)) +:+ "-" +:+ show_Z (s_p2 (scores game)))
       now] in
  with_completedGames st
    (if (100 <? length pushed)%nat then tail pushed else pushed).

(** The registered game under [gameId], after the calls made so far. *)
Definition the_game (gameId : string) (st : Server) (dflt : Game) : Game :=
  default dflt (games st !! gameId).

(** [resolveIfReady(gameId)].  [rnd] is the random draw of [resolveTurn].
    The waiters' promises are resolved with the log and the WebSocket
    broadcast is sent: both are output only, the list is emptied. *)
Definition resolveIfReady (gameId : string) (now : Z) (rnd : Q)
    (st : Server) : Server :=
  match games st !! gameId with
  | None => st
  | Some game =>
      match phase game with
      | over => st
      | input =>
          if negb (truthy (m_p1 (moves game))) || negb (truthy (m_p2 (moves game)))
          then st
          else
            (* Clear turn timer *)
            let st := match turnTimer game with
                      | Some t => clearTimeout t st
                      | None => st
                      end in
            let game := set_turnTimer game None in
            let (game, log) := resolveTurn game rnd in
            let st := with_games st (<[gameId := game]> (games st)) in
            let st := match phase game with
                      | input => startTurnTimer gameId st
                      | over => archiveGame game now st
                      end in
            let game := the_game gameId st game in
            (* Save updated game state to database *)
            let st := saveGameToDB game now st in
            (* Notify waiting long-pollers *)
            let game := set_moveWaiters game [] in
            let st := with_games st (<[gameId := game]> (games st)) in
            (* Bot follow-up *)
            if truthy (botDifficulty game) && negb (is_over (phase game))
            then snd (setTimeout (BotFollowUp gameId) st)
            else st
      end
  end.

Definition get_move (m : Moves) (p : PlayerId) : option string :=
  match p with P1 => m_p1 m | P2 => m_p2 m end.

Definition put_move (m : Moves) (p : PlayerId) (x : option string) : Moves :=
  match p with
  | P1 => mkMoves x (m_p2 m)
  | P2 => mkMoves (m_p1 m) x
  end.

(** [game.botSide || 'p2'] *)
Definition botSideOrP2 (game : Game) : PlayerId := default P2 (botSide game).

Record Draws := mkDraws {
  d_bot1 : Q;
  d_bot2 : Q;
  d_bot3 : Q;
  d_bot4 : Q;
  d_hit : Q
}.

(** The body of a timeout's closure. *)
Definition runCallback (cb : Callback) (now : Z) (rs : Draws)
    (st : Server) : Server :=
  match cb with
  | TurnTimeout gameId =>
      match games st !! gameId with
      | None => st
      | Some game =>
          (* Auto-submit 'advance' for anyone who hasn't moved *)
          let mv1 := if truthy (m_p1 (moves game)) then m_p1 (moves game)
                     else Some "advance" in
          let mv2 := if truthy (m_p2 (moves game)) then m_p2 (moves game)
                     else Some "advance" in
          let game := set_moves game (mkMoves mv1 mv2) in
          let st := with_games st (<[gameId := game]> (games st)) in
          resolveIfReady gameId now (d_hit rs) st
      end
  | BotFollowUp gameId =>
      match games st !! gameId with
      | None => st
      | Some game =>
          let botState := getGameState game (botSideOrP2 game) in
          let mv := botMove botState (botDifficulty game) (d_bot1 rs) (d_bot2 rs) in
          let game := set_moves game (put_move (moves game) (botSideOrP2 game) mv) in
          let st := with_games st (<[gameId := game]> (games st)) in
          resolveIfReady gameId now (d_hit rs) st
      end
  | ExhibitionTurn gameId =>
      match games st !! gameId with
      | None => st
      | Some game =>
          if is_over (phase game) then st
          else
            let p1State := getGameState game P1 in
            let p2State := getGameState game P2 in
            let mv1 := botMove p1State (botP1Difficulty game) (d_bot1 rs) (d_bot2 rs) in
            let mv2 := botMove p2State (botP2Difficulty game) (d_bot3 rs) (d_bot4 rs) in
            let game := set_moves game (mkMoves mv1 mv2) in
            let st := with_games st (<[gameId := game]> (games st)) in
            let st := resolveIfReady gameId now (d_hit rs) st in
            if is_over (phase (the_game gameId st game)) then st
            else snd (setTimeout (ExhibitionTurn gameId) st)
      end
  end.

(** A timeout fires: Node runs the callback of an armed timer once and
    drops it from its table; a timer that was cleared, or already ran,
    never runs. *)
Definition fireTimeout (t : nat) (now : Z) (rs : Draws) (st : Server) : Server :=
  match timeouts st !! t with
  | None => st
  | Some cb => runCallback cb now rs (clearTimeout t st)
  end.

(** ** REST handlers *)

Inductive Response :=
| RError (status : Z) (error : string)
| RGameOver (winner : option Winner) (turns : Z) (state : string)
| RTurn (status : string) (turn : Z) (state : string) (stateJson : GameState)
    (winner : option Winner)
| RDeferred
| RWaitingForOpponent
| RState (status : string) (turn : Z) (phase : Phase) (state : string)
    (stateJson : GameState) (winner : option Winner) (gameId : string)
    (playerId : PlayerId) (action_required : bool)
| RMatched (token gameId : string) (playerId : PlayerId) (opponent : string)
    (state : string) (stateJson : GameState)
| RQueued (token : string)
| RExhibition (gameId status : string).

Definition is_error (r : Response) : bool :=
  match r with RError _ _ => true | _ => false end.

Definition matchPlayers (token1 name1 token2 name2 : string) (now : Z)
    (st : Server) : string * Server :=
  let id := "g" +:+ show_N (gameIdCounter st) in
  let st := with_gameIdCounter st (gameIdCounter st + 1)%N in
  let game :=
    mkGame id input 0 4 (mkScores 0 0) (mkMoves None None) "" None name1 name2
      None [] (Some 30) None None false None None (Some token1) (Some token2)
      None None in
  let st := with_games st (<[id := game]> (games st)) in
  let st := with_players st
              (<[token1 := mkPlayerInfo id P1 (Some name1)]> (players st)) in
  let st := with_players st
              (<[token2 := mkPlayerInfo id P2 (Some name2)]> (players st)) in
  let st := startTurnTimer id st in
  (id, saveGameToDB (the_game id st game) now st).

(** The [while] loop at the top of the join handler: stale entries are
    shifted off the head, the first fresh entry stops the loop. *)
Fixpoint purgeStale (now : Z) (q : list QueueEntry) (st : Server) : Server :=
  match q with
  | stale :: q' =>
      if QUEUE_TIMEOUT_MS <? now - q_timestamp stale then
        purgeStale now q' (removeFromQueueDB (q_token stale) (with_queue st q'))
      else st
  | [] => st
  end.

Fixpoint findIndex {A} (f : A → bool) (l : list A) : option nat :=
  match l with
  | [] => None
  | x :: l' => if f x then Some 0%nat else S <$> findIndex f l'
  end.

(** [q => q.name !== name || q.ip !== ip] *)
Definition differs (name : string) (ip : Origin) (q : QueueEntry) : bool :=
  negb (String.eqb (q_name q) name) || negb (bool_decide (q_ip q = ip)).

Record JoinBody := mkJoinBody { jb_name : option string; jb_wait : bool }.

(** [(req.body && req.body.name) || 'Anonymous'] *)
Definition requesterName (body : JoinBody) : string :=
  if truthy (jb_name body) then default "" (jb_name body) else "Anonymous".

(** [POST /api/join].  [token] is what [genToken()] returns, [ip] the
    origin read from the request.  With [wait] the response is sent later
    by a polling interval that only reads the state. *)
Definition api_join (body : JoinBody) (token : string) (ip : Origin)
    (now : Z) (st : Server) : Server * Response :=
  let name := requesterName body in
  (* Clean stale queue entries *)
  let st := purgeStale now (queue st) st in
  (* Find opponent (prevent self-matching) *)
  match findIndex (differs name ip) (queue st) with
  | Some opponentIdx =>
      match queue st !! opponentIdx with
      | Some opponent =>
          let st := with_queue st (delete opponentIdx (queue st)) in
          let st := removeFromQueueDB (q_token opponent) st in
          let (gameId, st) :=
            matchPlayers (q_token opponent) (q_name opponent) token name now st in
          let game := the_game gameId st (createGame gameId) in
          (st, RMatched token gameId P2 (q_name opponent)
                 (compactState game P2) (getGameState game P2))
      | None =>
          (* [opponent] would be undefined: not reached, the index is in range *)
          (st, RError 500 "TypeError")
      end
  | None =>
      let entry := mkQueueEntry token name ip now in
      let st := with_queue st (queue st ++ [entry]) in
      let st := saveQueueToDB entry st in
      (st, if jb_wait body then RDeferred else RQueued token)
  end.

Record MoveBody := mkMoveBody {
  mb_token : option string;
  mb_move : option string;
  mb_wait : bool
}.

(** [POST /api/move] *)
Definition api_move (body : MoveBody) (now : Z) (rs : Draws)
    (st : Server) : Server * Response :=
  if negb (truthy (mb_token body)) then (st, RError 400 "token required")
  else if negb (truthy (mb_move body)) then
    (st, RError 400 "move required (advance/retreat/lunge/parry)")
  else
    let token := default "" (mb_token body) in
    let move := default "" (mb_move body) in
    match players st !! token with
    | None => (st, RError 404 "Unknown token. Join first.")
    | Some info =>
        match games st !! gameId info with
        | None => (st, RError 404 "Game not found")
        | Some game =>
            match phase game with
            | over =>
                (st, RGameOver (winner game) (turn game)
                       (compactState game (playerId info)))
            | input =>
                if truthy (get_move (moves game) (playerId info)) then
                  (st, RError 400 "Already submitted move this turn")
                else if negb (validateMove move) then
                  (st, RError 400 "move must be: advance/retreat/lunge/parry")
                else
                  let game := set_moves game
                    (put_move (moves game) (playerId info) (Some move)) in
                  (* Bot auto-move for practice mode *)
                  let game :=
                    if truthy (botDifficulty game)
                       && negb (truthy (get_move (moves game) (botSideOrP2 game)))
                    then
                      let botState := getGameState game (botSideOrP2 game) in
                      set_moves game
                        (put_move (moves game) (botSideOrP2 game)
                           (botMove botState (botDifficulty game)
                              (d_bot1 rs) (d_bot2 rs)))
                    else game in
                  let st := with_games st (<[gameId info := game]> (games st)) in
                  (* Check if both players have moved *)
                  if truthy (m_p1 (moves game)) && truthy (m_p2 (moves game)) then
                    let st := resolveIfReady (gameId info) now (d_hit rs) st in
                    let game := the_game (gameId info) st game in
                    (st, RTurn (if is_over (phase game) then "game_over"
                                else "resolved")
                           (turn game) (compactState game (playerId info))
                           (getGameState game (playerId info)) (winner game))
                  else if mb_wait body then
                    (with_games st
                       (<[gameId info :=
                            set_moveWaiters game (moveWaiters game ++ [token])]>
                          (games st)),
                     RDeferred)
                  else (st, RWaitingForOpponent)
            end
        end
    end.

(** [GET /api/state/:token] *)
Definition api_state (token : string) (st : Server) : Response :=
  match players st !! token with
  | None => RError 404 "Unknown token"
  | Some info =>
      match games st !! gameId info with
      | None => RError 404 "Game not found"
      | Some game =>
          let mine := truthy (get_move (moves game) (playerId info)) in
          RState
            (if is_over (phase game) then "game_over"
             else if mine then "waiting_for_opponent" else "your_turn")
            (turn game) (phase game) (compactState game (playerId info))
            (getGameState game (playerId info)) (winner game) (gameId info)
            (playerId info) (negb (is_over (phase game)) && negb mine)
      end
  end.

Record PracticeBody := mkPracticeBody {
  pb_difficulty : option string;
  pb_name : option string
}.

(** [POST /api/practice] *)
Definition api_practice (body : PracticeBody) (token : string) (now : Z)
    (st : Server) : Server * Response :=
  let difficulty := default "medium" (pb_difficulty body) in
  let name := default "Player" (pb_name body) in
  let id := "bot_" +:+ show_N (gameIdCounter st) in
  let st := with_gameIdCounter st (gameIdCounter st + 1)%N in
  let game :=
    mkGame id input 0 4 (mkScores 0 0) (mkMoves None None) "" None name
      ("Bot(" +:+ difficulty +:+ ")") None [] (Some 30) (Some difficulty)
      (Some P2) false None None (Some token) None None None in
  let st := with_games st (<[id := game]> (games st)) in
  let st := with_players st
              (<[token := mkPlayerInfo id P1 (Some name)]> (players st)) in
  let st := startTurnTimer id st in
  let game := the_game id st game in
  let st := saveGameToDB game now st in
  (st, RMatched token id P1 (p2Name game) (compactState game P1)
         (getGameState game P1)).

Record ExhibitionBody := mkExhibitionBody {
  eb_p1Difficulty : option string;
  eb_p2Difficulty : option string
}.

(** [POST /api/exhibition].  [tok1], [tok2]: the two [genToken()] results. *)
Definition api_exhibition (body : ExhibitionBody) (tok1 tok2 : string)
    (now : Z) (st : Server) : Server * Response :=
  match List.find (fun kv => exhibition (snd kv) && negb (is_over (phase (snd kv))))
          (map_to_list (games st)) with
  | Some (id, _) => (st, RExhibition id "already_running")
  | None =>
      let st := with_gameIdCounter st (gameIdCounter st + 1)%N in
      let gameId := "ex_" +:+ show_N (gameIdCounter st) in
      let d1 := if truthy (eb_p1Difficulty body)
                then default "" (eb_p1Difficulty body) else "hard" in
      let d2 := if truthy (eb_p2Difficulty body)
                then default "" (eb_p2Difficulty body) else "hard" in
      let game :=
        mkGame gameId input 0 4 (mkScores 0 0) (mkMoves None None) "" None
          ("Bot(" +:+ d1 +:+ ")") ("Bot(" +:+ d2 +:+ ")") None [] None None
          None true (Some d1) (Some d2) None None (Some tok1) (Some tok2) in
      let st := with_games st (<[gameId := game]> (games st)) in
      let st := with_players st
                  (<[tok1 := mkPlayerInfo gameId P1 None]> (players st)) in
      let st := with_players st
                  (<[tok2 := mkPlayerInfo gameId P2 None]> (players st)) in
      let st := saveGameToDB game now st in
      let st := snd (setTimeout (ExhibitionTurn gameId) st) in
      (st, RExhibition gameId "started")
  end.

(** ** Start-up recovery ([loadDataFromDB]) *)

Definition is_digit (c : ascii) : bool :=
  (48 <=? nat_of_ascii c)%nat && (nat_of_ascii c <=? 57)%nat.

(** [parseInt] of a string of decimal digits (exact: the precision of JS
    numbers above 2^53 is not modelled). *)
Fixpoint digits_value (acc : N) (s : string) : option N :=
  match s with
  | "" => Some acc
  | String c s' =>
      if is_digit c
      then digits_value (10 * acc + (N_of_ascii c - 48))%N s'
      else None
  end.

(** [id => { const match = id.match(/^g(\d+)$/);
             return match ? parseInt(match[1]) : 0; }] *)
Definition gameNumber (id : string) : N :=
  match id with
  | String "g" (String c s') =>
      match digits_value 0 (String c s') with
      | Some n => n
      | None => 0%N
      end
  | _ => 0%N
  end.

(** [Math.max(...xs, 0)] *)
Definition maxOf (xs : list N) : N := fold_right N.max 0%N xs.

Definition restorePlayer (tok : option string) (info : PlayerInfo)
    (st : Server) : Server :=
  match tok with
  | Some t => if truthy tok then with_players st (<[t := info]> (players st)) else st
  | None => st
  end.

Definition loadGame (st : Server) (row : GameRow) : Server :=
  let game := loadGameFromDB row in
  let st := with_games st (<[game_id game := game]> (games st)) in
  (* Restore player mappings *)
  let st := restorePlayer (p1Token game)
              (mkPlayerInfo (game_id game) P1 (Some (p1Name game))) st in
  let st := restorePlayer (p2Token game)
              (mkPlayerInfo (game_id game) P2 (Some (p2Name game))) st in
  let st := if exhibition game
            then restorePlayer (ex_p1 game) (mkPlayerInfo (game_id game) P1 None) st
            else st in
  let st := if exhibition game
            then restorePlayer (ex_p2 game) (mkPlayerInfo (game_id game) P2 None) st
            else st in
  (* Restart turn timer if game is in input phase *)
  match phase game with
  | input => startTurnTimer (game_id game) st
  | over => st
  end.

Definition loadQueueEntry (now : Z) (st : Server) (row : QueueRow) : Server :=
  if now - qr_created_at row <? QUEUE_TIMEOUT_MS then
    with_queue st
      (queue st ++
       [mkQueueEntry (qr_token row) (qr_name row) (qr_ip row) (qr_created_at row)])
  else removeFromQueueDB (qr_token row) st.

Definition loadCompleted (st : Server) (row : GameRow) : Server :=
  let state := r_state_json row in
  with_completedGames st
    (completedGames st ++
     [mkSummary (r_id row) (r_winner row) (r_turn row) (r_p1_name row)
        (r_p2_name row)
        (show_Z (s_p1 (j_scores state)) +:+ "-" +:+ show_Z (s_p2 (j_scores state)))
        (r_updated_at row)]).

Definition loadDataFromDB (now : Z) (st : Server) : Server :=
  (* Load active games *)
  let activeGames := loadActiveGamesStmt (db_games st) in
  let st := fold_left loadGame activeGames st in
  (* Load queue entries (recent ones only) *)
  let queueEntries := loadQueueStmt (db_queue st) in
  let st := fold_left (loadQueueEntry now) queueEntries st in
  (* Load completed games for the recent history *)
  let completed := getCompletedGamesStmt (db_games st) in
  let st := fold_left loadCompleted completed st in
  (* Update gameIdCounter to avoid conflicts *)
  let maxGameId :=
    maxOf (map gameNumber (map fst (map_to_list (games st)))
           ++ map (fun row => gameNumber (r_id row)) completed) in
  with_gameIdCounter st (maxGameId + 1)%N.

(** The module-level state of a process that has just started on the
    given database, before and after [loadDataFromDB()]. *)
Definition freshProcess (dbg : list GameRow) (dbq : list QueueRow) : Server :=
  mkServer ∅ ∅ [] [] 1%N ∅ 0%nat dbg dbq.

Definition startup (dbg : list GameRow) (dbq : list QueueRow) (now : Z) : Server :=
  loadDataFromDB now (freshProcess dbg dbq).

(** A restart keeps the database and nothing else. *)
Definition restart (st : Server) (now : Z) : Server :=
  startup (db_games st) (db_queue st) now.

(** ** Events of the single-threaded event loop *)

Inductive Event :=
| EvJoin (body : JoinBody) (token : string) (ip : Origin)
| EvMove (body : MoveBody)
| EvPractice (body : PracticeBody) (token : string)
| EvExhibition (body : ExhibitionBody) (tok1 tok2 : string)
| EvTimeout (t : nat).

(** One event runs to completion before the next one starts. *)
Definition step (ev : Event) (now : Z) (rs : Draws) (st : Server) : Server :=
  match ev with
  | EvJoin body token ip => fst (api_join body token ip now st)
  | EvMove body => fst (api_move body now rs st)
  | EvPractice body token => fst (api_practice body token now st)
  | EvExhibition body tok1 tok2 => fst (api_exhibition body tok1 tok2 now st)
  | EvTimeout t => fireTimeout t now rs st
  end.

(** ** Rate limiting ([rateLimit]) *)

Record RateEntry := mkRateEntry { rl_count : Z; rl_resetTime : Z }.

Inductive Verdict := Next | TooMany (retryAfter : Z).

(** [Math.ceil(a / b)] for integers [a] and [b > 0]. *)
Definition ceilDiv (a b : Z) : Z := - ((- a) / b).

(** The middleware [rateLimit(maxRequests, windowMs)] run on one request:
    [key] is the string built from the caller's ip and the endpoint,
    [now] the clock, [store] the module-level [rateLimitStore]. *)
Definition rateLimit (maxRequests windowMs : Z) (key : string) (now : Z)
    (store : gmap string RateEntry) : gmap string RateEntry * Verdict :=
  match store !! key with
  | None => (<[key := mkRateEntry 1 (now + windowMs)]> store, Next)
  | Some entry =>
      if rl_resetTime entry <? now then
        (<[key := mkRateEntry 1 (now + windowMs)]> store, Next)
      else
        let entry := mkRateEntry (rl_count entry + 1) (rl_resetTime entry) in
        let store := <[key := entry]> store in
        if maxRequests <? rl_count entry then
          (store, TooMany (ceilDiv (rl_resetTime entry - now) 1000))
        else (store, Next)
  end.

(** The five-minute interval that deletes the entries whose window is over. *)
Definition rateLimitCleanup (now : Z) (store : gmap string RateEntry)
    : gmap string RateEntry :=
  filter (λ kv, ¬ (rl_resetTime (snd kv) < now)) store.

(** The same limiter serving a series of requests of one key, given by
    their clock readings. *)
Fixpoint rateLimitAll (maxRequests windowMs : Z) (key : string)
    (times : list Z) (store : gmap string RateEntry) : list Verdict :=
  match times with
  | [] => []
  | now :: times' =>
      let (store', v) := rateLimit maxRequests windowMs key now store in
      v :: rateLimitAll maxRequests windowMs key times' store'
  end.

Definition is_next (v : Verdict) : bool :=
  match v with Next => true | TooMany _ => false end.

(** ** The auto-player clients ([pick], [chooseMove], [detectDeadlock]) *)

(** The loop of [pick] over [Object.entries(weights)], [sum] so far. *)
Fixpoint pickLoop (rand sum : Q) (weights : list (string * Q)) : option string :=
  match weights with
  | [] => None
  | (move, prob) :: rest =>
      if Qle_bool rand (sum + prob) then Some move
      else pickLoop rand (sum + prob) rest
  end.

(** [pick(weights)]: [rand] is the [Math.random()] of the call; the
    weights are rationals standing for the JS doubles; the result is
    [None] ([undefined]) only for an empty object. *)
Definition pick (weights : list (string * Q)) (rand : Q) : option string :=
  match pickLoop rand 0 weights with
  | Some move => Some move
  | None => fst <$> head weights
  end.

(** The [stateJson] a client reads; a field may be missing ([{}]). *)
Record ClientState := mkClientState {
  cs_distance : option Z;
  cs_score : option Z;
  cs_oppScore : option Z;
  cs_turn : option Z
}.

(** [a > b], [a >= k], [a === k] on numbers that may be [undefined]. *)
Definition js_gt (a b : option Z) : bool :=
  match a, b with
  | Some x, Some y => y <? x
  | _, _ => false
  end.

Definition js_ge (a : option Z) (k : Z) : bool :=
  match a with
  | Some x => k <=? x
  | None => false
  end.

Definition js_is (a : option Z) (k : Z) : bool :=
  match a with
  | Some x => x =? k
  | None => false
  end.

(** [chooseMove(state)] of the first auto-player. *)
Definition chooseMove (state : ClientState) (rand : Q) : option string :=
  let distance := cs_distance state in
  let leading := js_gt (cs_score state) (cs_oppScore state) in
  let trailing := js_gt (cs_oppScore state) (cs_score state) in
  let lateGame := js_gt (cs_turn state) (Some 20) in
  if js_ge distance 4 then Some "advance"
  else if js_is distance 3 then
    if trailing || lateGame then
      pick [("advance", 8 # 10); ("lunge", 1 # 10); ("parry", 1 # 10)] rand
    else pick [("advance", 7 # 10); ("parry", 2 # 10); ("lunge", 1 # 10)] rand
  else if js_is distance 2 then
    if trailing then
      pick [("lunge", 3 # 10); ("parry", 4 # 10); ("advance", 3 # 10)] rand
    else if leading then
      pick [("parry", 6 # 10); ("retreat", 2 # 10); ("advance", 2 # 10)] rand
    else pick [("parry", 5 # 10); ("advance", 3 # 10); ("lunge", 2 # 10)] rand
  else if js_is distance 1 then
    if trailing then pick [("lunge", 65 # 100); ("parry", 35 # 100)] rand
    else if leading && lateGame then
      pick [("parry", 7 # 10); ("retreat", 2 # 10); ("lunge", 1 # 10)] rand
    else pick [("lunge", 5 # 10); ("parry", 5 # 10)] rand
  else Some "advance".

Definition DEADLOCK_THRESHOLD : nat := 4.

(** [recentDistances.slice(-n)] *)
Definition lastN {A} (n : nat) (l : list A) : list A :=
  drop (length l - n) l.

(** [detectDeadlock(distance)] of the second auto-player: the new
    [recentDistances] and the answer. *)
Definition detectDeadlock (distance : option Z) (recentDistances : list (option Z))
    : list (option Z) * bool :=
  let recent := recentDistances ++ [distance] in
  let recent := if (10 <? length recent)%nat then tail recent else recent in
  if (DEADLOCK_THRESHOLD <=? length recent)%nat then
    let last := lastN DEADLOCK_THRESHOLD recent in
    (recent, forallb (fun d => bool_decide (d = default None (head last))) last)
  else (recent, false).

(** [chooseMove(state)] of the second auto-player, with its module-level
    [recentDistances]. *)
Definition chooseMove2 (state : ClientState) (recentDistances : list (option Z))
    (rand : Q) : list (option Z) * option string :=
  let distance := cs_distance state in
  let leading := js_gt (cs_score state) (cs_oppScore state) in
  let trailing := js_gt (cs_oppScore state) (cs_score state) in
  let lateGame := js_gt (cs_turn state) (Some 20) in
  let (recent, deadlocked) := detectDeadlock distance recentDistances in
  (recent,
   if deadlocked then
     if js_is distance 1 then
       pick [("retreat", 45 # 100); ("lunge", 35 # 100); ("parry", 2 # 10)] rand
     else if js_ge distance 4 then
       pick [("advance", 5 # 10); ("lunge", 3 # 10); ("parry", 2 # 10)] rand
     else
       pick [("lunge", 4 # 10); ("advance", 3 # 10); ("parry", 2 # 10);
             ("retreat", 1 # 10)] rand
   else if js_ge distance 4 then Some "advance"
   else if js_is distance 3 then
     if trailing || lateGame then
       pick [("advance", 7 # 10); ("lunge", 15 # 100); ("parry", 15 # 100)] rand
     else pick [("advance", 6 # 10); ("parry", 25 # 100); ("lunge", 15 # 100)] rand
   else if js_is distance 2 then
     if trailing then
       pick [("lunge", 35 # 100); ("advance", 3 # 10); ("parry", 35 # 100)] rand
     else if leading then
       pick [("parry", 55 # 100); ("retreat", 2 # 10); ("advance", 15 # 100);
             ("lunge", 1 # 10)] rand
     else
       pick [("parry", 45 # 100); ("advance", 25 # 100); ("lunge", 2 # 10);
             ("retreat", 1 # 10)] rand
   else if js_is distance 1 then
     if trailing then
       pick [("lunge", 55 # 100); ("parry", 3 # 10); ("retreat", 15 # 100)] rand
     else if leading && lateGame then
       pick [("parry", 5 # 10); ("retreat", 3 # 10); ("lunge", 2 # 10)] rand
     else pick [("lunge", 4 # 10); ("parry", 4 # 10); ("retreat", 2 # 10)] rand
   else Some "advance").

(** ** Specification-side vocabulary *)

(** *** Move resolution *)

(** Clamping to the strip [1,6]. *)
Definition clamp (x : Z) : Z := Z.max 1 (Z.min 6 x).

(** advance: -1, retreat: +1, stay: 0. *)
Definition delta (move : string) : Z :=
  if String.eqb move "advance" then -1
  else if String.eqb move "retreat" then 1
  else 0.

(** The turn count has reached [maxTurns]. *)
Definition reached (t : Z) (mx : option Z) : Prop :=
  ∃ m, mx = Some m ∧ m ≤ t.

(** The game as [resolveTurn(game)] leaves it. *)
Definition resolved (g : Game) (rnd : Q) : Game := fst (resolveTurn g rnd).

(** What the win check decides, in the order the specification gives. *)
Definition winCheckOrdered (before after : Game) : Prop :=
  let a := s_p1 (scores after) in
  let b := s_p2 (scores after) in
  (3 ≤ a ∧ 3 ≤ b → winner after = Some sudden_death ∧ phase after = over) ∧
  (3 ≤ a ∧ b < 3 → winner after = Some win_p1 ∧ phase after = over) ∧
  (a < 3 ∧ 3 ≤ b → winner after = Some win_p2 ∧ phase after = over) ∧
  (a < 3 ∧ b < 3 ∧ reached (turn after) (maxTurns after) →
     phase after = over ∧
     (b < a → winner after = Some win_p1) ∧
     (a < b → winner after = Some win_p2) ∧
     (a = b → winner after = Some sudden_death)) ∧
  (a < 3 ∧ b < 3 ∧ ¬ reached (turn after) (maxTurns after) →
     phase after = phase before ∧ winner after = winner before).

(** Side [p] scored a touch between the two states. *)
Definition scoredBy (p : PlayerId) (before after : Game) : Prop :=
  match p with
  | P1 => s_p1 (scores after) = s_p1 (scores before) + 1
  | P2 => s_p2 (scores after) = s_p2 (scores before) + 1
  end.

(** The distance reset of [resolveTurn] applies: someone scored, not both. *)
Definition resetApplies (o : Outcome) : bool :=
  (scoreP1 o || scoreP2 o) && negb (scoreP1 o && scoreP2 o).

(** A fresh game with the given pending moves and distance. *)
Definition sampleGame (m1 m2 : option string) (d : Z) : Game :=
  set_distance (set_moves (createGame "g1") (mkMoves m1 m2)) d.

(** *** Matchmaking *)

(** The queue the join handler scans: what its purge loop leaves. *)
Definition purgedQueue (now : Z) (st : Server) : list QueueEntry :=
  queue (purgeStale now (queue st) st).

(** A queue entry has the requester's own (displayName, originKey) pair. *)
Definition samePair (name : string) (ip : Origin) (e : QueueEntry) : Prop :=
  q_name e = name ∧ q_ip e = ip.

(** The join request ended in a new game that pairs entry [opp] (as p1)
    with the requester's [token] (as p2). *)
Definition matchedWith (out : Server * Response) (token : string)
    (opp : QueueEntry) : Prop :=
  ∃ gid game state sj,
    snd out = RMatched token gid P2 (q_name opp) state sj ∧
    games (fst out) !! gid = Some game ∧
    p1Token game = Some (q_token opp) ∧ p2Token game = Some token ∧
    p1Name game = q_name opp ∧ phase game = input.

(** The response says [matched]. *)
Definition is_matched (r : Response) : bool :=
  match r with RMatched _ _ _ _ _ _ => true | _ => false end.

(** *** Move submission *)

(** The request's token is bound to a registered session. *)
Definition knownSession (st : Server) (body : MoveBody) (info : PlayerInfo)
    (g : Game) : Prop :=
  ∃ tok, mb_token body = Some tok ∧ tok ≠ "" ∧
         players st !! tok = Some info ∧ games st !! gameId info = Some g.

(** The request carries no move (missing, or the empty string). *)
Definition moveAbsent (body : MoveBody) : Prop :=
  mb_move body = None ∨ mb_move body = Some "".

(** The move is one of the four legal tokens. *)
Definition moveLegal (body : MoveBody) : Prop :=
  ∃ m, mb_move body = Some m ∧ validateMove m = true.

(** The caller already has a pending move this turn. *)
Definition pendingMove (info : PlayerInfo) (g : Game) : Prop :=
  truthy (get_move (moves g) (playerId info)) = true.

(** *** Timer and submission *)

(** The turn number of the session registered under [gid]. *)
Definition turnOf (gid : string) (st : Server) : option Z :=
  turn <$> games st !! gid.

(** Session [gid] is in its input phase and [t] is its armed turn timer. *)
Definition timerArmed (st : Server) (gid : string) (g : Game) (t : nat) : Prop :=
  games st !! gid = Some g ∧ phase g = input ∧ turnTimer g = Some t ∧
  timeouts st !! t = Some (TurnTimeout gid) ∧ (t < nextTimer st)%nat.

(** The request is a move submission by a participant of session [gid]. *)
Definition submissionFor (st : Server) (gid : string) (body : MoveBody) : Prop :=
  ∃ tok info, mb_token body = Some tok ∧ players st !! tok = Some info ∧
              gameId info = gid.

(** What [startTurnTimer] does to a registered game. *)
Definition armed (st : Server) (g : Game) : Game :=
  match phase g with
  | input => set_turnTimer g (Some (nextTimer st))
  | over => g
  end.

(** *** Retention of finished sessions *)

(** The id under which an event registers a new session, if it creates
    one (a join creates one only when it finds an opponent). *)
Definition mintedId (ev : Event) (st : Server) : option string :=
  match ev with
  | EvJoin _ _ _ => Some ("g" +:+ show_N (gameIdCounter st))
  | EvPractice _ _ => Some ("bot_" +:+ show_N (gameIdCounter st))
  | EvExhibition _ _ _ => Some ("ex_" +:+ show_N (gameIdCounter st + 1))
  | EvMove _ | EvTimeout _ => None
  end.

(** The tokens an event may bind in the player map: the fresh tokens of
    the request and, for a join, the token of whichever queue entry is
    picked as opponent. *)
Definition boundTokens (ev : Event) (st : Server) : list string :=
  match ev with
  | EvJoin _ token _ => token :: map q_token (queue st)
  | EvPractice _ token => [token]
  | EvExhibition _ tok1 tok2 => [tok1; tok2]
  | EvMove _ | EvTimeout _ => []
  end.

(** What the state endpoint reports of a finished game. *)
Definition terminalView (g : Game)
    : Phase * Z * Z * Scores * string * option Winner * option Z :=
  (phase g, turn g, distance g, scores g, lastResult g, winner g, maxTurns g).

(** The [status] field of a response that has one. *)
Definition status_of (r : Response) : option string :=
  match r with
  | RState status _ _ _ _ _ _ _ _ => Some status
  | RTurn status _ _ _ _ => Some status
  | RGameOver _ _ _ => Some "game_over"
  | _ => None
  end.

(** *** Concrete runs used as test inputs *)

(** Every random draw is 0. *)
Definition noDraws : Draws := mkDraws 0 0 0 0 0.

(** Events with their clock reading and random draws, run in order. *)
Definition run (evs : list (Event * Z * Draws)) (st : Server) : Server :=
  fold_left (fun st e => step (fst (fst e)) (snd (fst e)) (snd e) st) evs st.

(** A non-blocking move submission. *)
Definition humanMove (tok mv : string) : Event :=
  EvMove (mkMoveBody (Some tok) (Some mv) false).

(** A finished match "g1", won 3-1 by its first player, whose token is
    "tokA". *)
Definition finishedGame : Game :=
  set_phase
    (set_winner (set_turn (set_scores (createGame "g1") (mkScores 3 1)) 9)
       (Some win_p1))
    over.

(** A server whose only session is that finished match. *)
Definition finishedServer : Server :=
  mkServer {["g1" := finishedGame]}
    {["tokA" := mkPlayerInfo "g1" P1 (Some "Ann")]} [] [] 2%N ∅ 0%nat [] [].

(** The body of a practice request that leaves every field to its default. *)
Definition practiceDefault : PracticeBody := mkPracticeBody None None.

(** A process starts on an empty database and serves one practice
    request (token "tokA"); the game it creates is "bot_1". *)
Definition beforeRestart : Server :=
  fst (api_practice practiceDefault "tokA" 1000 (startup [] [] 0)).

(** The practice game "bot_1" of [beforeRestart], turn 0, timer 0 armed. *)
Definition practiceGame : Game :=
  the_game "bot_1" beforeRestart (createGame "bot_1").

(** The process is restarted on the database it left. *)
Definition afterRestart : Server := restart beforeRestart 2000.

(** "tokA" then plays the reloaded game to its end.  The first move gets
    the bot's reply at once; after each resolution the bot's follow-up
    timeout (handles 2, 4, 6, 8) commits the bot's next move 200 ms
    later.  Two advances against the bot's advances close the distance
    to 1, then three double hits give 3-3. *)
Definition playedOut : Server :=
  run [ (humanMove "tokA" "advance", 2100, mkDraws 0 0 0 0 0);
        (EvTimeout 2, 2300, mkDraws (1 # 2) 0 0 0 0);
        (humanMove "tokA" "advance", 2400, noDraws);
        (EvTimeout 4, 2600, mkDraws 0 0 0 0 0);
        (humanMove "tokA" "lunge", 2700, noDraws);
        (EvTimeout 6, 2900, mkDraws 0 0 0 0 0);
        (humanMove "tokA" "lunge", 3000, noDraws);
        (EvTimeout 8, 3200, mkDraws 0 0 0 0 0);
        (humanMove "tokA" "lunge", 3300, noDraws) ]
      afterRestart.

(** Somebody else asks for a practice game. *)
Definition afterSecondPractice : Server :=
  fst (api_practice practiceDefault "tokB" 4000 playedOut).

(** Two players join an empty server and are matched in game "g1":
    "tokAnn" is p1, "tokBob" is p2; turn 0, timer 0 armed. *)
Definition duelStart : Server :=
  fst (api_join (mkJoinBody (Some "Bob") false) "tokBob" (ip_str "10.0.0.2") 2000
         (fst (api_join (mkJoinBody (Some "Ann") false) "tokAnn"
                 (ip_str "10.0.0.1") 1000 (startup [] [] 0)))).

(** The game "g1" of [duelStart]. *)
Definition duelGame : Game := the_game "g1" duelStart (createGame "g1").

(** *** More vocabulary for the rules *)

(** A lunge lands: surely at distance 1, on a draw below one half at
    distance 2, never from further away. *)
Definition lands (d : Z) (rnd : Q) : Prop :=
  d = 1 ∨ (d = 2 ∧ (rnd < 1 # 2)%Q).

(** What the turn timer's callback makes of the pending moves. *)
Definition autoFilled (m : Moves) : Moves :=
  mkMoves (if truthy (m_p1 m) then m_p1 m else Some "advance")
          (if truthy (m_p2 m) then m_p2 m else Some "advance").

(** A queue entry has waited longer than the queue timeout. *)
Definition stale (now : Z) (e : QueueEntry) : Prop :=
  QUEUE_TIMEOUT_MS < now - q_timestamp e.

(** *** Sessions and server states that can occur *)

(** The declared winner agrees with the scores. *)
Definition winnerFits (g : Game) : Prop :=
  match winner g with
  | Some win_p1 => s_p2 (scores g) < s_p1 (scores g)
  | Some win_p2 => s_p1 (scores g) < s_p2 (scores g)
  | Some sudden_death => s_p1 (scores g) = s_p2 (scores g)
  | None => False
  end.

(** The turn limit of a session: 30 for every matched or practice
    session, which never passes it; an exhibition has none until it is
    read back from the database. *)
Definition limitFits (g : Game) : Prop :=
  if exhibition g then maxTurns g = None ∨ maxTurns g = Some 30
  else maxTurns g = Some 30 ∧ turn g ≤ 30 ∧ (phase g = input → turn g < 30).

(** A session as the rules allow it to be. *)
Definition sound (g : Game) : Prop :=
  1 ≤ distance g ≤ 6 ∧
  0 ≤ s_p1 (scores g) ≤ 3 ∧ 0 ≤ s_p2 (scores g) ≤ 3 ∧
  0 ≤ turn g ∧
  limitFits g ∧
  match phase g with
  | input => s_p1 (scores g) < 3 ∧ s_p2 (scores g) < 3 ∧ winner g = None
  | over =>
      winnerFits g ∧
      (s_p1 (scores g) = 3 ∨ s_p2 (scores g) = 3
       ∨ turnLimitReached (turn g) (maxTurns g) = true)
  end.


(** Every registered session and every stored row is sound. *)
Definition allSound (st : Server) : Prop :=
  (∀ id g, games st !! id = Some g → sound g) ∧
  Forall (fun row => sound (loadGameFromDB row)) (db_games st).











(** * Properties *)

(** ** Move resolution *)

Lemma validateMove_cases move :
  validateMove move = true →
  move = "advance" ∨ move = "retreat" ∨ move = "lunge" ∨ move = "parry".
Proof.
  unfold validateMove, validMoves; simpl.
  rewrite !orb_true_iff, !String.eqb_eq. intuition discriminate.
Qed.

Lemma applyOther_range other d : 1 ≤ d ≤ 6 → 1 ≤ applyOther other d ≤ 6.
Proof. intros Hd. unfold applyOther. repeat case_match; lia. Qed.

Lemma resolveRules_range m1 m2 d rnd :
  1 ≤ d ≤ 6 → 1 ≤ newDistance (resolveRules m1 m2 d rnd) ≤ 6.
Proof.
  intros Hd. unfold resolveRules.
  repeat (case_match; simpl); try lia;
    apply applyOther_range; lia.
Qed.

Lemma checkWin_frame g :
  turn (checkWin g) = turn g ∧ distance (checkWin g) = distance g ∧
  scores (checkWin g) = scores g ∧ moves (checkWin g) = moves g ∧
  lastResult (checkWin g) = lastResult g ∧ maxTurns (checkWin g) = maxTurns g ∧
  botDifficulty (checkWin g) = botDifficulty g ∧
  botSide (checkWin g) = botSide g ∧ turnTimer (checkWin g) = turnTimer g ∧
  game_id (checkWin g) = game_id g.
Proof. unfold checkWin. repeat case_match; simpl; tauto. Qed.

Lemma resolveTurn_fields g rnd :
  let o := resolveRules (m_p1 (moves g)) (m_p2 (moves g)) (distance g) rnd in
  let g' := fst (resolveTurn g rnd) in
  turn g' = turn g + 1 ∧
  distance g' = (if resetApplies o then 4 else newDistance o) ∧
  s_p1 (scores g') = (if scoreP1 o then s_p1 (scores g) + 1 else s_p1 (scores g)) ∧
  s_p2 (scores g') = (if scoreP2 o then s_p2 (scores g) + 1 else s_p2 (scores g)) ∧
  moves g' = mkMoves None None ∧
  lastResult g' = (if resetApplies o then result o +:+ " Distance resets to 4."
                   else result o) ∧
  maxTurns g' = maxTurns g ∧ botDifficulty g' = botDifficulty g ∧
  botSide g' = botSide g ∧ turnTimer g' = turnTimer g ∧ game_id g' = game_id g.
Proof.
  intros o g'. subst g'. unfold resolveTurn. fold o. cbn [fst].
  match goal with |- context [checkWin ?x] =>
    destruct (checkWin_frame x) as (-> & -> & -> & -> & -> & -> & -> & -> & -> & ->)
  end.
  unfold resetApplies. simpl. tauto.
Qed.

(** C1. For every pair of legal moves and every distance in [1,6],
    [resolveTurn] returns (it is a total function: no branch can throw)
    and the distance it writes back into the game is in [1,6]. *)
Theorem resolveTurn_total_distance_in_range (g : Game) (move1 move2 : string)
    (rnd : Q) :
  validateMove move1 = true →
  validateMove move2 = true →
  moves g = mkMoves (Some move1) (Some move2) →
  1 ≤ distance g ≤ 6 →
  ∃ g' log, resolveTurn g rnd = (g', log) ∧ 1 ≤ distance g' ≤ 6.
Proof.
  intros _ _ _ Hd.
  exists (fst (resolveTurn g rnd)), (snd (resolveTurn g rnd)).
  split; [by destruct (resolveTurn g rnd) |].
  destruct (resolveTurn_fields g rnd) as (_ & -> & _).
  case_match; [lia | by apply resolveRules_range].
Qed.

Lemma resolveTurn_total_distance_in_range_witness :
  ∃ g' log,
    resolveTurn (sampleGame (Some "lunge") (Some "retreat") 6) (1 # 3) = (g', log)
    ∧ 1 ≤ distance g' ≤ 6.
Proof.
  apply (resolveTurn_total_distance_in_range
           (sampleGame (Some "lunge") (Some "retreat") 6) "lunge" "retreat" (1 # 3));
    [reflexivity | reflexivity | reflexivity | simpl; lia].
Defined.

Lemma turnLimitReached_spec t mx :
  turnLimitReached t mx = true ↔ reached t mx.
Proof.
  unfold turnLimitReached, reached. destruct mx as [m|].
  - rewrite Z.leb_le. split; [eauto | by intros (? & [= <-] & ?)].
  - split; [done | by intros (? & ? & ?)].
Qed.

Lemma checkWin_ordered g : winCheckOrdered g (checkWin g).
Proof.
  unfold winCheckOrdered.
  destruct (checkWin_frame g) as (-> & _ & -> & _ & _ & -> & _).
  pose proof (turnLimitReached_spec (turn g) (maxTurns g)) as Hr.
  unfold checkWin.
  destruct (3 <=? s_p1 (scores g)) eqn:Ha;
    destruct (3 <=? s_p2 (scores g)) eqn:Hb;
    destruct (turnLimitReached (turn g) (maxTurns g)) eqn:Ht;
    destruct (s_p2 (scores g) <? s_p1 (scores g)) eqn:E1;
    destruct (s_p1 (scores g) <? s_p2 (scores g)) eqn:E2;
    rewrite ?Z.leb_le, ?Z.leb_gt in Ha, Hb;
    rewrite ?Z.ltb_lt, ?Z.ltb_ge in E1, E2;
    simpl; repeat split; intros; simpl;
    try done; try lia; try (exfalso; intuition (lia || congruence)).
Qed.

(** C2. After every turn resolution the win conditions have been checked
    in this order: both scores at least 3 gives sudden death; otherwise
    the one side at 3 wins; otherwise, once the turn count (already
    incremented, by exactly one) has reached [maxTurns], the higher score
    wins and a tie is sudden death; each of these ends the game in the
    very state [resolveTurn] returns, and otherwise phase and winner are
    left as they were. *)
Theorem resolveTurn_win_conditions_ordered (g : Game) (rnd : Q) :
  turn (resolved g rnd) = turn g + 1 ∧
  maxTurns (resolved g rnd) = maxTurns g ∧
  winCheckOrdered g (resolved g rnd).
Proof.
  destruct (resolveTurn_fields g rnd) as (Ht & _ & _ & _ & _ & _ & Hm & _).
  split; [exact Ht | split; [exact Hm |]].
  unfold resolved, resolveTurn. cbn [fst].
  match goal with |- winCheckOrdered _ (checkWin ?x) =>
    pose proof (checkWin_ordered x) as H
  end.
  unfold winCheckOrdered in *. simpl in *. exact H.
Qed.

Lemma Qltb_lt a b : Qltb a b = true ↔ (a < b)%Q.
Proof.
  unfold Qltb. rewrite negb_true_iff. split.
  - intros H. apply Qnot_le_lt. intros Hle.
    apply Qle_bool_iff in Hle. congruence.
  - intros H. destruct (Qle_bool b a) eqn:E; [| done].
    apply Qle_bool_iff in E. exfalso. by apply (Qlt_not_le a b).
Qed.

Lemma scoredBy_P1 g rnd :
  scoredBy P1 g (resolved g rnd) ↔
  scoreP1 (resolveRules (m_p1 (moves g)) (m_p2 (moves g)) (distance g) rnd) = true.
Proof.
  destruct (resolveTurn_fields g rnd) as (_ & _ & H & _).
  unfold scoredBy, resolved. rewrite H. case_match; split; (done || lia).
Qed.

Lemma scoredBy_P2 g rnd :
  scoredBy P2 g (resolved g rnd) ↔
  scoreP2 (resolveRules (m_p1 (moves g)) (m_p2 (moves g)) (distance g) rnd) = true.
Proof.
  destruct (resolveTurn_fields g rnd) as (_ & _ & _ & H & _).
  unfold scoredBy, resolved. rewrite H. case_match; split; (done || lia).
Qed.

(** C3. Whenever exactly one side scores in a resolution the distance
    written back is 4, whatever the move rules computed; when both lunge
    at distance 1 both score, nothing is reset and the distance stays 1. *)
Theorem single_scorer_resets_double_hit_does_not (g : Game) (rnd : Q) :
  ((scoredBy P1 g (resolved g rnd) ∧ ¬ scoredBy P2 g (resolved g rnd)) ∨
   (scoredBy P2 g (resolved g rnd) ∧ ¬ scoredBy P1 g (resolved g rnd)) →
   distance (resolved g rnd) = 4) ∧
  (moves g = mkMoves (Some "lunge") (Some "lunge") ∧ distance g = 1 →
   scoredBy P1 g (resolved g rnd) ∧ scoredBy P2 g (resolved g rnd) ∧
   distance (resolved g rnd) = 1 ∧
   lastResult (resolved g rnd) =
     "Both fencers lunge simultaneously at close range → DOUBLE HIT!").
Proof.
  split.
  - rewrite scoredBy_P1, scoredBy_P2.
    destruct (resolveTurn_fields g rnd) as (_ & Hd & _).
    unfold resolved. rewrite Hd. unfold resetApplies.
    destruct (scoreP1 _), (scoreP2 _); simpl; intuition congruence.
  - intros [Hm Hd].
    rewrite scoredBy_P1, scoredBy_P2.
    destruct (resolveTurn_fields g rnd) as (_ & Hd' & _ & _ & _ & Hl & _).
    unfold resolved. rewrite Hd', Hl, Hm, Hd. by vm_compute.
Qed.

Lemma Scores_ext (a b : Scores) : s_p1 a = s_p1 b → s_p2 a = s_p2 b → a = b.
Proof. destruct a, b; simpl; congruence. Qed.

Lemma resolveRules_long_lunge (p1Move p2Move other : string) d rnd :
  (d =? 1) = false → (d =? 2) = false →
  other = "advance" ∨ other = "retreat" →
  (p1Move = "lunge" ∧ p2Move = other) ∨ (p1Move = other ∧ p2Move = "lunge") →
  let o := resolveRules (Some p1Move) (Some p2Move) d rnd in
  newDistance o = applyOther (Some other) (Z.max 1 (d - 1)) ∧
  scoreP1 o = false ∧ scoreP2 o = false.
Proof.
  intros E1 E2 Ho Hm.
  assert (∀ x y, resolveRules (Some x) (Some y) d rnd
                 = resolveRules (Some x) (Some y) d rnd) as _ by done.
  destruct Ho as [-> | ->]; destruct Hm as [[-> ->] | [-> ->]];
    unfold resolveRules; cbn -[Z.max Z.min applyOther Z.eqb String.append];
    rewrite E1, E2; cbn -[Z.max Z.min applyOther]; done.
Qed.

(** C7. A lunge from distance 3 or more against an advance or a retreat
    misses: nobody scores, the distance first drops by one (clamped) and
    then takes the other side's own movement (clamped again); from
    distance 3 against a retreat the two cancel. *)
Theorem long_lunge_whiffs_and_movement_stacks (g : Game) (rnd : Q)
    (other : string) :
  3 ≤ distance g ≤ 6 →
  validateMove other = true → (other ≠ "lunge") → (other ≠ "parry") →
  moves g = mkMoves (Some "lunge") (Some other) ∨
  moves g = mkMoves (Some other) (Some "lunge") →
  scores (resolved g rnd) = scores g ∧
  distance (resolved g rnd) = clamp (clamp (distance g - 1) + delta other) ∧
  (distance g = 3 → other = "retreat" → distance (resolved g rnd) = 3).
Proof.
  intros Hd Hv Hl Hp Hm.
  destruct (resolveTurn_fields g rnd) as (_ & Hd' & H1 & H2 & _).
  assert (other = "advance" ∨ other = "retreat") as Ho
    by (apply validateMove_cases in Hv; intuition congruence).
  assert ((distance g =? 1) = false) as E1 by (apply Z.eqb_neq; lia).
  assert ((distance g =? 2) = false) as E2 by (apply Z.eqb_neq; lia).
  assert (∃ a b, moves g = mkMoves (Some a) (Some b) ∧
                 ((a = "lunge" ∧ b = other) ∨ (a = other ∧ b = "lunge")))
    as (a & b & Hab & Hcase)
    by (destruct Hm as [-> | ->]; eexists _, _; split; eauto).
  destruct (resolveRules_long_lunge a b other (distance g) rnd E1 E2 Ho Hcase)
    as (Hn & Hs1 & Hs2).
  rewrite Hab in Hd', H1, H2. cbn [m_p1 m_p2] in Hd', H1, H2.
  unfold resetApplies in Hd'. rewrite Hs1, Hs2 in *. cbn [orb andb negb] in Hd'.
  unfold resolved. rewrite Hd', Hn.
  split; [by apply Scores_ext |].
  assert (applyOther (Some other) (Z.max 1 (distance g - 1))
          = clamp (clamp (distance g - 1) + delta other)) as ->
    by (destruct Ho as [-> | ->]; unfold applyOther, clamp, delta;
        cbn [is_move String.eqb Ascii.eqb Bool.eqb]; lia).
  split; [done |].
  intros H3 ->. unfold clamp, delta. cbn [String.eqb Ascii.eqb Bool.eqb]. lia.
Qed.

Lemma long_lunge_whiffs_and_movement_stacks_witness :
  scores (resolved (sampleGame (Some "lunge") (Some "retreat") 3) (1 # 3))
  = scores (sampleGame (Some "lunge") (Some "retreat") 3) ∧
  distance (resolved (sampleGame (Some "lunge") (Some "retreat") 3) (1 # 3))
  = clamp (clamp (distance (sampleGame (Some "lunge") (Some "retreat") 3) - 1)
           + delta "retreat") ∧
  (distance (sampleGame (Some "lunge") (Some "retreat") 3) = 3 →
   "retreat" = "retreat" →
   distance (resolved (sampleGame (Some "lunge") (Some "retreat") 3) (1 # 3)) = 3).
Proof.
  apply (long_lunge_whiffs_and_movement_stacks
           (sampleGame (Some "lunge") (Some "retreat") 3) (1 # 3) "retreat");
    [simpl; lia | reflexivity | discriminate | discriminate | left; reflexivity].
Defined.

Lemma resolveRules_both_lunge d rnd :
  (d =? 1) = false →
  resolveRules (Some "lunge") (Some "lunge") d rnd =
  if d =? 2 then
    if Qltb rnd (1 # 2) then
      mkOutcome d "P1 lunges at medium range → CLOSE HIT! P1 scores." true false
    else
      mkOutcome d "P1 lunges at medium range → miss! P2 lunge." false false
  else
    mkOutcome (Z.max 1 (d - 1))
      "P1 lunges at long range → WHIFF! P1 is exposed. P2 gets free advance."
      false false.
Proof.
  intros E1. unfold resolveRules.
  cbn -[Z.max Z.min Z.eqb Qltb]. rewrite E1.
  destruct (d =? 2); [destruct (Qltb rnd (1 # 2)) |]; reflexivity.
Qed.

(** C9. When both lunge at distance 2 or more, player 1 is the lunger
    and player 2's lunge is only "the other move": player 2 never scores;
    at distance 2 player 1 scores exactly when the random draw is below
    one half (and the distance is then reset to 4), a miss leaves the
    distance at 2; at distance 3 or more nobody scores and only the
    lunger's own whiff penalty moves the distance. *)
Theorem both_lunge_beyond_one_favours_p1 (g : Game) (rnd : Q) :
  moves g = mkMoves (Some "lunge") (Some "lunge") →
  2 ≤ distance g →
  s_p2 (scores (resolved g rnd)) = s_p2 (scores g) ∧
  (distance g = 2 →
     ((rnd < 1 # 2)%Q →
        scoredBy P1 g (resolved g rnd) ∧ distance (resolved g rnd) = 4 ∧
        lastResult (resolved g rnd) =
          "P1 lunges at medium range → CLOSE HIT! P1 scores. Distance resets to 4.") ∧
     (¬ (rnd < 1 # 2)%Q →
        s_p1 (scores (resolved g rnd)) = s_p1 (scores g) ∧
        distance (resolved g rnd) = 2 ∧
        lastResult (resolved g rnd) =
          "P1 lunges at medium range → miss! P2 lunge.")) ∧
  (3 ≤ distance g →
     s_p1 (scores (resolved g rnd)) = s_p1 (scores g) ∧
     distance (resolved g rnd) = Z.max 1 (distance g - 1) ∧
     lastResult (resolved g rnd) =
       "P1 lunges at long range → WHIFF! P1 is exposed. P2 gets free advance.").
Proof.
  intros Hm Hd.
  destruct (resolveTurn_fields g rnd) as (_ & Hd' & H1 & H2 & _ & Hl & _).
  pose proof (Qltb_lt rnd (1 # 2)) as Hq.
  assert ((distance g =? 1) = false) as E1 by (apply Z.eqb_neq; lia).
  unfold resolved, scoredBy. rewrite Hd', H1, H2, Hl, Hm. clear Hd' H1 H2 Hl.
  cbn [m_p1 m_p2]. rewrite (resolveRules_both_lunge _ rnd E1).
  split; [| split].
  - destruct (distance g =? 2); [destruct (Qltb rnd (1 # 2)) |]; done.
  - intros E2. assert ((distance g =? 2) = true) as -> by (apply Z.eqb_eq; lia).
    split.
    + intros Hlt. apply Hq in Hlt. rewrite Hlt. by vm_compute.
    + intros Hn. destruct (Qltb rnd (1 # 2)); [by destruct Hn; apply Hq |].
      cbn -[Z.add]. done.
  - intros H3.
    assert ((distance g =? 2) = false) as -> by (apply Z.eqb_neq; lia).
    done.
Qed.

Lemma both_lunge_beyond_one_favours_p1_witness :
  s_p2 (scores (resolved (sampleGame (Some "lunge") (Some "lunge") 2) (1 # 3))) = 0 ∧
  scoredBy P1 (sampleGame (Some "lunge") (Some "lunge") 2)
    (resolved (sampleGame (Some "lunge") (Some "lunge") 2) (1 # 3)).
Proof.
  destruct (both_lunge_beyond_one_favours_p1
              (sampleGame (Some "lunge") (Some "lunge") 2) (1 # 3)
              eq_refl ltac:(simpl; lia)) as (H2 & Hhit & _).
  split; [exact H2 |].
  destruct (Hhit eq_refl) as [Hyes _].
  apply Hyes. reflexivity.
Defined.

(** ** Matchmaking queue *)

Lemma findIndex_Some {A} (f : A → bool) (l : list A) (i : nat) :
  findIndex f l = Some i →
  ∃ x, l !! i = Some x ∧ f x = true ∧
       ∀ j y, (j < i)%nat → l !! j = Some y → f y = false.
Proof.
  revert i. induction l as [| a l IH]; intros i; simpl; [done |].
  destruct (f a) eqn:Fa.
  - intros [= <-]. exists a. repeat split; [done | intros; lia].
  - destruct (findIndex f l) as [k |] eqn:E; simpl; [| done].
    intros [= <-]. destruct (IH k eq_refl) as (x & Hx & Fx & Hlt).
    exists x. repeat split; [done | done |].
    intros [| j] y Hj; simpl; [by intros [= <-] |].
    apply Hlt. lia.
Qed.

Lemma findIndex_None {A} (f : A → bool) (l : list A) :
  findIndex f l = None ↔ ∀ x, x ∈ l → f x = false.
Proof.
  induction l as [| a l IH]; simpl.
  - split; [intros _ x Hx; by apply elem_of_nil in Hx | done].
  - destruct (f a) eqn:Fa.
    + split; [done |]. intros H. specialize (H a (list_elem_of_here _ _)). congruence.
    + destruct (findIndex f l) eqn:E; simpl.
      * split; [done |]. intros H.
        assert (@None nat = None) as _ by done.
        destruct IH as [_ IH]. discriminate IH.
        intros x Hx. apply H. by apply list_elem_of_further.
      * split; [| done]. intros _ x Hx.
        apply elem_of_cons in Hx as [-> | Hx]; [done |]. by apply IH.
Qed.

Lemma findIndex_first {A} (f : A → bool) (l : list A) (i : nat) (x : A) :
  l !! i = Some x → f x = true →
  (∀ j y, (j < i)%nat → l !! j = Some y → f y = false) →
  findIndex f l = Some i.
Proof.
  revert i. induction l as [| a l IH]; intros i; [done |].
  destruct i as [| i]; simpl.
  - intros [= ->] -> _. done.
  - intros Hx Fx Hlt.
    rewrite (Hlt 0%nat a ltac:(lia) eq_refl).
    rewrite (IH i Hx Fx); [done |].
    intros j y Hj Hy. apply (Hlt (S j) y); [lia | done].
Qed.

Lemma differs_true name ip e : differs name ip e = true ↔ ¬ samePair name ip e.
Proof.
  unfold differs, samePair.
  rewrite orb_true_iff, !negb_true_iff, bool_decide_eq_false.
  destruct (String.eqb_spec (q_name e) name) as [-> | Hn].
  - split; [intros [? | ?] [_ ?]; done |].
    intros H. right. intros ?. by apply H.
  - split; [intros _ [? _]; done | by left].
Qed.

Lemma differs_false name ip e : differs name ip e = false ↔ samePair name ip e.
Proof.
  destruct (differs name ip e) eqn:E.
  - apply differs_true in E. split; [done | intros; contradiction].
  - split; [| done]. intros _.
    unfold differs, samePair in *.
    apply orb_false_iff in E as [E1 E2].
    apply negb_false_iff in E1, E2.
    apply String.eqb_eq in E1. by apply bool_decide_eq_true in E2.
Qed.

Lemma startTurnTimer_frame gameId st :
  players (startTurnTimer gameId st) = players st ∧
  queue (startTurnTimer gameId st) = queue st ∧
  completedGames (startTurnTimer gameId st) = completedGames st ∧
  gameIdCounter (startTurnTimer gameId st) = gameIdCounter st ∧
  db_games (startTurnTimer gameId st) = db_games st ∧
  db_queue (startTurnTimer gameId st) = db_queue st.
Proof.
  unfold startTurnTimer, setTimeout.
  repeat case_match; simpl; repeat split; done.
Qed.

Lemma saveGameToDB_frame game now st :
  games (saveGameToDB game now st) = games st ∧
  players (saveGameToDB game now st) = players st ∧
  queue (saveGameToDB game now st) = queue st ∧
  completedGames (saveGameToDB game now st) = completedGames st ∧
  gameIdCounter (saveGameToDB game now st) = gameIdCounter st ∧
  timeouts (saveGameToDB game now st) = timeouts st ∧
  nextTimer (saveGameToDB game now st) = nextTimer st.
Proof. unfold saveGameToDB. case_match; simpl; repeat split; done. Qed.

Lemma games_saveGameToDB game now st : games (saveGameToDB game now st) = games st.
Proof. apply saveGameToDB_frame. Qed.

Lemma queue_saveGameToDB game now st : queue (saveGameToDB game now st) = queue st.
Proof. apply saveGameToDB_frame. Qed.

Lemma timeouts_saveGameToDB game now st :
  timeouts (saveGameToDB game now st) = timeouts st.
Proof. apply saveGameToDB_frame. Qed.

Lemma nextTimer_saveGameToDB game now st :
  nextTimer (saveGameToDB game now st) = nextTimer st.
Proof. apply saveGameToDB_frame. Qed.

Lemma players_saveGameToDB game now st :
  players (saveGameToDB game now st) = players st.
Proof. apply saveGameToDB_frame. Qed.

Lemma queue_startTurnTimer gameId st : queue (startTurnTimer gameId st) = queue st.
Proof. apply startTurnTimer_frame. Qed.

Lemma players_startTurnTimer gameId st :
  players (startTurnTimer gameId st) = players st.
Proof. apply startTurnTimer_frame. Qed.

Create Rewrite HintDb srv.
#[local] Hint Rewrite games_saveGameToDB queue_saveGameToDB timeouts_saveGameToDB
  nextTimer_saveGameToDB players_saveGameToDB queue_startTurnTimer
  players_startTurnTimer : srv.

(** An armed-and-registered game gets its timer handle, nothing else. *)
Lemma startTurnTimer_input gameId game st :
  games st !! gameId = Some game → phase game = input →
  games (startTurnTimer gameId st)
    = <[gameId := set_turnTimer game (Some (nextTimer st))]> (games st) ∧
  timeouts (startTurnTimer gameId st)
    = <[nextTimer st := TurnTimeout gameId]> (timeouts st) ∧
  nextTimer (startTurnTimer gameId st) = S (nextTimer st).
Proof.
  intros Hg Hp. unfold startTurnTimer, setTimeout. rewrite Hg, Hp. by cbn.
Qed.

Lemma lookup_startTurnTimer gameId st :
  games (startTurnTimer gameId st) !! gameId = armed st <$> games st !! gameId.
Proof.
  unfold startTurnTimer, setTimeout, armed.
  destruct (games st !! gameId) as [g |] eqn:Hg; [| by rewrite Hg].
  destruct (phase g) eqn:Hp; cbn; rewrite Hp;
    [by rewrite lookup_insert_eq | by rewrite Hg].
Qed.

Lemma lookup_startTurnTimer_ne gameId other st :
  gameId ≠ other →
  games (startTurnTimer gameId st) !! other = games st !! other.
Proof.
  intros Hne. unfold startTurnTimer, setTimeout.
  repeat case_match; cbn; [by rewrite lookup_insert_ne | done | done].
Qed.

Lemma matchPlayers_spec token1 name1 token2 name2 now st :
  ∃ game,
    games (snd (matchPlayers token1 name1 token2 name2 now st))
      !! fst (matchPlayers token1 name1 token2 name2 now st) = Some game ∧
    p1Token game = Some token1 ∧ p2Token game = Some token2 ∧
    p1Name game = name1 ∧ p2Name game = name2 ∧ phase game = input ∧
    queue (snd (matchPlayers token1 name1 token2 name2 now st)) = queue st.
Proof.
  unfold matchPlayers. cbn [fst snd].
  autorewrite with srv. cbn [queue with_players with_games with_gameIdCounter].
  rewrite lookup_startTurnTimer. cbn [games with_players with_games].
  rewrite lookup_insert_eq. eexists. split; [done |]. by cbn.
Qed.

Lemma api_join_matched body token ip now st i opp :
  findIndex (differs (requesterName body) ip) (purgedQueue now st) = Some i →
  purgedQueue now st !! i = Some opp →
  matchedWith (api_join body token ip now st) token opp ∧
  queue (fst (api_join body token ip now st)) = delete i (purgedQueue now st).
Proof.
  unfold purgedQueue, api_join. intros -> ->.
  match goal with |- context [matchPlayers ?a ?b ?c ?d ?e ?f] =>
    destruct (matchPlayers_spec a b c d e f) as (game & Hg & H1 & H2 & H3 & H4 & H5 & Hq);
    destruct (matchPlayers a b c d e f) as [gid st3]
  end.
  cbn [fst snd] in *. split.
  - exists gid, game, (compactState game P2), (getGameState game P2).
    unfold the_game. rewrite Hg. cbn. by eauto 10.
  - rewrite Hq. done.
Qed.

Lemma api_join_queued body token ip now st :
  findIndex (differs (requesterName body) ip) (purgedQueue now st) = None →
  queue (fst (api_join body token ip now st))
    = purgedQueue now st ++ [mkQueueEntry token (requesterName body) ip now] ∧
  is_matched (snd (api_join body token ip now st)) = false.
Proof.
  unfold purgedQueue, api_join. intros ->. cbn.
  split; [done | by destruct (jb_wait body)].
Qed.

(** C6. On a join request the purged queue is scanned from the head and
    the requester is paired with the first entry whose (name, origin)
    pair differs from the requester's; an entry with the same name and
    the same origin is never selected, so a queue holding only the
    requester's own earlier entry gives no match (the new entry is
    appended instead), while an entry with the same name and another
    origin at the head is matched. *)
Theorem join_pairs_with_first_differing_entry (body : JoinBody)
    (token : string) (ip : Origin) (now : Z) (st : Server) :
  (∀ i opp,
     purgedQueue now st !! i = Some opp →
     ¬ samePair (requesterName body) ip opp →
     (∀ j e, (j < i)%nat → purgedQueue now st !! j = Some e →
             samePair (requesterName body) ip e) →
     matchedWith (api_join body token ip now st) token opp ∧
     queue (fst (api_join body token ip now st)) = delete i (purgedQueue now st)) ∧
  ((∀ e, e ∈ purgedQueue now st → samePair (requesterName body) ip e) →
     is_matched (snd (api_join body token ip now st)) = false ∧
     queue (fst (api_join body token ip now st))
       = purgedQueue now st ++ [mkQueueEntry token (requesterName body) ip now]) ∧
  (∀ opp, matchedWith (api_join body token ip now st) token opp →
     is_matched (snd (api_join body token ip now st)) = true ∧
     ∃ sel, sel ∈ purgedQueue now st ∧ q_token sel = q_token opp ∧
            ¬ samePair (requesterName body) ip sel) ∧
  (∀ e, purgedQueue now st = [e] → samePair (requesterName body) ip e →
     is_matched (snd (api_join body token ip now st)) = false ∧
     queue (fst (api_join body token ip now st))
       = [e; mkQueueEntry token (requesterName body) ip now]) ∧
  (∀ e rest, purgedQueue now st = e :: rest →
     q_name e = requesterName body → q_ip e ≠ ip →
     matchedWith (api_join body token ip now st) token e).
Proof.
  assert (∀ i opp,
     purgedQueue now st !! i = Some opp →
     ¬ samePair (requesterName body) ip opp →
     (∀ j e, (j < i)%nat → purgedQueue now st !! j = Some e →
             samePair (requesterName body) ip e) →
     matchedWith (api_join body token ip now st) token opp ∧
     queue (fst (api_join body token ip now st)) = delete i (purgedQueue now st))
    as Hfirst.
  { intros i opp Hi Hdiff Hbefore.
    apply api_join_matched; [| done].
    apply (findIndex_first _ _ i opp); [done | by apply differs_true |].
    intros j y Hj Hy. apply differs_false. eauto. }
  assert ((∀ e, e ∈ purgedQueue now st → samePair (requesterName body) ip e) →
     is_matched (snd (api_join body token ip now st)) = false ∧
     queue (fst (api_join body token ip now st))
       = purgedQueue now st ++ [mkQueueEntry token (requesterName body) ip now])
    as Hnone.
  { intros Hall.
    destruct (api_join_queued body token ip now st) as [Hq Hm]; [| done].
    apply findIndex_None. intros x Hx. apply differs_false. auto. }
  split; [exact Hfirst |]. split; [exact Hnone |]. split; [| split].
  - intros opp (gid & game & state & sj & Hr & Hg & Ht1 & _).
    split; [by rewrite Hr |].
    destruct (findIndex (differs (requesterName body) ip) (purgedQueue now st))
      as [i |] eqn:E.
    + destruct (findIndex_Some _ _ _ E) as (sel & Hsel & Hd & _).
      destruct (api_join_matched body token ip now st i sel E Hsel)
        as [(gid' & game' & state' & sj' & Hr' & Hg' & Ht1' & _) _].
      rewrite Hr in Hr'. injection Hr' as <- _ _ _.
      rewrite Hg in Hg'. injection Hg' as <-.
      exists sel. split; [by eapply list_elem_of_lookup_2 |].
      split; [congruence | by apply differs_true].
    + destruct (api_join_queued body token ip now st E) as [_ Hm].
      rewrite Hr in Hm. discriminate.
  - intros e He Hsame. rewrite He in Hnone. apply Hnone.
    intros e' He'. apply list_elem_of_singleton in He' as ->. done.
  - intros e rest He Hn Hip.
    apply (Hfirst 0%nat e); [by rewrite He | | intros; lia].
    intros [_ ?]. contradiction.
Qed.

(** ** Move submission *)

Lemma truthy_Some_true (m : option string) :
  truthy m = true ↔ ∃ s, m = Some s ∧ s ≠ "".
Proof.
  destruct m as [[| c s] |]; simpl; split; try done.
  - by intros (? & [= <-] & ?).
  - intros _. by eexists.
  - by intros (? & ? & ?).
Qed.

Lemma truthy_false_absent (m : option string) :
  truthy m = false ↔ m = None ∨ m = Some "".
Proof.
  destruct m as [[| c s] |]; simpl; split; try done; auto.
  - intros [? | ?]; done.
Qed.

Lemma api_move_error_unchanged body now rs st :
  is_error (snd (api_move body now rs st)) = true →
  fst (api_move body now rs st) = st.
Proof.
  unfold api_move. repeat case_match; cbn [fst snd is_error]; done.
Qed.

Lemma api_move_known body now rs st info g :
  knownSession st body info g →
  api_move body now rs st =
  if negb (truthy (mb_move body)) then
    (st, RError 400 "move required (advance/retreat/lunge/parry)")
  else
    match phase g with
    | over => (st, RGameOver (winner g) (turn g) (compactState g (playerId info)))
    | input =>
        if truthy (get_move (moves g) (playerId info)) then
          (st, RError 400 "Already submitted move this turn")
        else if negb (validateMove (default "" (mb_move body))) then
          (st, RError 400 "move must be: advance/retreat/lunge/parry")
        else
          let game := set_moves g
            (put_move (moves g) (playerId info) (Some (default "" (mb_move body)))) in
          let game :=
            if truthy (botDifficulty game)
               && negb (truthy (get_move (moves game) (botSideOrP2 game)))
            then
              set_moves game
                (put_move (moves game) (botSideOrP2 game)
                   (botMove (getGameState game (botSideOrP2 game))
                      (botDifficulty game) (d_bot1 rs) (d_bot2 rs)))
            else game in
          let st1 := with_games st (<[gameId info := game]> (games st)) in
          if truthy (m_p1 (moves game)) && truthy (m_p2 (moves game)) then
            let st2 := resolveIfReady (gameId info) now (d_hit rs) st1 in
            let game := the_game (gameId info) st2 game in
            (st2, RTurn (if is_over (phase game) then "game_over" else "resolved")
                    (turn game) (compactState game (playerId info))
                    (getGameState game (playerId info)) (winner game))
          else if mb_wait body then
            (with_games st1
               (<[gameId info :=
                    set_moveWaiters game
                      (moveWaiters game ++ [default "" (mb_token body)])]>
                  (games st1)),
             RDeferred)
          else (st1, RWaitingForOpponent)
    end.
Proof.
  intros (tok & Ht & Hne & Hp & Hg).
  unfold api_move. rewrite Ht.
  change (default "" (Some tok)) with tok.
  assert (truthy (Some tok) = true) as -> by (apply truthy_Some_true; eauto).
  cbn [negb]. rewrite Hp, Hg. done.
Qed.

(** C8 (as stated) fails: for a session whose phase is over, a submission
    whose move is the empty string is answered with an error, not with
    the terminal game state. *)
Lemma over_session_empty_move_is_rejected :
  knownSession finishedServer (mkMoveBody (Some "tokA") (Some "") false)
    (mkPlayerInfo "g1" P1 (Some "Ann")) finishedGame ∧
  phase finishedGame = over ∧
  api_move (mkMoveBody (Some "tokA") (Some "") false) 0 noDraws finishedServer
  = (finishedServer, RError 400 "move required (advance/retreat/lunge/parry)").
Proof.
  split; [| split; reflexivity].
  exists "tokA". repeat split; try discriminate; by vm_compute.
Qed.

(** C8 (amended). The move submission is rejected with an error, and the
    server state left as it was, when the token is missing or bound to no
    session, when the request carries no move, and, for a session in the
    input phase, when the caller already has a pending move or the move
    is not one of the four legal tokens; there is no other error.  For a
    session whose phase is over a request that carries a move is answered
    with the terminal state (winner, turn count, rendered state), the
    state again unchanged. *)
Theorem move_submission_rejections (body : MoveBody) (now : Z) (rs : Draws)
    (st : Server) :
  ((¬ ∃ info g, knownSession st body info g) →
     is_error (snd (api_move body now rs st)) = true) ∧
  (∀ info g, knownSession st body info g →
     (moveAbsent body → is_error (snd (api_move body now rs st)) = true) ∧
     (phase g = over → ¬ moveAbsent body →
        api_move body now rs st
        = (st, RGameOver (winner g) (turn g) (compactState g (playerId info)))) ∧
     (phase g = input → pendingMove info g →
        is_error (snd (api_move body now rs st)) = true) ∧
     (phase g = input → ¬ moveLegal body →
        is_error (snd (api_move body now rs st)) = true) ∧
     (phase g = input → ¬ pendingMove info g → moveLegal body →
        is_error (snd (api_move body now rs st)) = false)) ∧
  (is_error (snd (api_move body now rs st)) = true →
     fst (api_move body now rs st) = st).
Proof.
  split; [| split; [| apply api_move_error_unchanged]].
  - intros Hun. unfold api_move.
    destruct (truthy (mb_token body)) eqn:Et; [| done].
    destruct (truthy (mb_move body)) eqn:Em; [| done].
    cbn [negb].
    apply truthy_Some_true in Et as (tok & Ht & Hne). rewrite Ht.
    change (default "" (Some tok)) with tok.
    destruct (players st !! tok) as [info |] eqn:Hp; [| done].
    destruct (games st !! gameId info) as [g |] eqn:Hg; [| done].
    destruct Hun. exists info, g, tok. done.
  - intros info g Hk. rewrite (api_move_known body now rs st info g Hk).
    unfold moveAbsent, moveLegal, pendingMove.
    rewrite <- truthy_false_absent.
    repeat split.
    + intros ->. done.
    + intros -> Hm. destruct (truthy (mb_move body)); [done | by destruct Hm].
    + intros -> ->. by destruct (truthy (mb_move body)).
    + intros -> Hill. destruct (truthy (mb_move body)) eqn:Em; [| done].
      cbn [negb]. destruct (truthy (get_move _ _)); [done |].
      apply truthy_Some_true in Em as (m & Hm & Hne). rewrite Hm.
      change (default "" (Some m)) with m.
      destruct (validateMove m) eqn:Ev; [| done].
      destruct Hill. eauto.
    + intros -> Hnp (m & Hm & Hv). rewrite Hm.
      change (default "" (Some m)) with m. rewrite Hv.
      assert (truthy (Some m) = true) as ->
        by (destruct m; [discriminate | done]).
      cbn [negb]. destruct (truthy (get_move _ _)); [done |].
      cbv zeta. repeat case_match; done.
Qed.

(** ** Turn timer against manual submission *)

Lemma resolveIfReady_idle gid now rnd st :
  (∀ g, games st !! gid = Some g →
        phase g = over ∨ truthy (m_p1 (moves g)) = false
        ∨ truthy (m_p2 (moves g)) = false) →
  resolveIfReady gid now rnd st = st.
Proof.
  intros H. unfold resolveIfReady.
  destruct (games st !! gid) as [g |]; [| done].
  destruct (H g eq_refl) as [-> | [-> | ->]]; [done | |];
    destruct (phase g); try done.
  by rewrite orb_true_r.
Qed.

Lemma resolveIfReady_ready gid now rnd st g :
  games st !! gid = Some g → phase g = input →
  truthy (m_p1 (moves g)) = true → truthy (m_p2 (moves g)) = true →
  ∃ g',
    games (resolveIfReady gid now rnd st) !! gid = Some g' ∧
    turn g' = turn g + 1 ∧ moves g' = mkMoves None None ∧
    botDifficulty g' = botDifficulty g ∧ botSide g' = botSide g ∧
    players (resolveIfReady gid now rnd st) = players st ∧
    (∀ t, turnTimer g = Some t → (t < nextTimer st)%nat →
          timeouts (resolveIfReady gid now rnd st) !! t = None).
Proof.
  intros Hg Hp H1 H2. unfold resolveIfReady. rewrite Hg, Hp, H1, H2.
  cbn [negb orb].
  destruct (resolveTurn_fields (set_turnTimer g None) rnd)
    as (Ht & _ & _ & _ & Hm & _ & _ & Hb & Hs & _).
  destruct (resolveTurn (set_turnTimer g None) rnd) as [g1 log].
  cbn [fst] in *.
  set (st1 := match turnTimer g with
              | Some t => clearTimeout t st
              | None => st
              end).
  assert (games st1 = games st ∧ players st1 = players st ∧
          nextTimer st1 = nextTimer st ∧
          ∀ t, turnTimer g = Some t → timeouts st1 !! t = None)
    as (Hg1 & Hpl1 & Hn1 & Hto1).
  { subst st1. destruct (turnTimer g) as [t |]; cbn; repeat split; try done.
    intros ? [= <-]. apply lookup_delete_eq. }
  rewrite Hg1.
  set (st2 := with_games st1 (<[gid:=g1]> (games st))).
  set (st3 := match phase g1 with
              | input => startTurnTimer gid st2
              | over => archiveGame g1 now st2
              end).
  assert (∃ g3, games st3 !! gid = Some g3 ∧ turn g3 = turn g1 ∧
                moves g3 = moves g1 ∧ botDifficulty g3 = botDifficulty g1 ∧
                botSide g3 = botSide g1 ∧ phase g3 = phase g1)
    as (g3 & Hg3 & Ht3 & Hm3 & Hb3 & Hs3 & Hp3).
  { subst st3. destruct (phase g1) eqn:Hp1.
    - rewrite lookup_startTurnTimer. subst st2. cbn [games with_games].
      rewrite lookup_insert_eq. cbn. unfold armed. rewrite Hp1.
      eexists. split; [done |]. by cbn.
    - subst st2. cbn. rewrite lookup_insert_eq. by eexists. }
  assert (players st3 = players st) as Hpl3.
  { subst st3. destruct (phase g1); [rewrite players_startTurnTimer |]; done. }
  assert (∀ t, turnTimer g = Some t → (t < nextTimer st)%nat →
               timeouts st3 !! t = None ∧ (t < nextTimer st3)%nat) as Hto3.
  { intros t Ht' Hlt. subst st3. destruct (phase g1) eqn:Hp1.
    - edestruct (startTurnTimer_input gid g1 st2) as (_ & -> & ->);
        [subst st2; cbn; apply lookup_insert_eq | done |].
      subst st2. cbn [nextTimer timeouts with_games]. rewrite Hn1.
      split; [| lia]. rewrite lookup_insert_ne by lia. by apply Hto1.
    - subst st2. cbn. rewrite Hn1. split; [by apply Hto1 | done]. }
  assert (the_game gid st3 g1 = g3) as ->
    by (unfold the_game; by rewrite Hg3).
  exists (set_moveWaiters g3 []).
  assert (∀ s : Server,
            games (if truthy (botDifficulty (set_moveWaiters g3 []))
                      && negb (is_over (phase (set_moveWaiters g3 [])))
                   then snd (setTimeout (BotFollowUp gid) s) else s) = games s ∧
            players (if truthy (botDifficulty (set_moveWaiters g3 []))
                      && negb (is_over (phase (set_moveWaiters g3 [])))
                   then snd (setTimeout (BotFollowUp gid) s) else s) = players s ∧
            ∀ t, (t < nextTimer s)%nat →
              timeouts (if truthy (botDifficulty (set_moveWaiters g3 []))
                      && negb (is_over (phase (set_moveWaiters g3 [])))
                   then snd (setTimeout (BotFollowUp gid) s) else s) !! t
              = timeouts s !! t) as Hfollow.
  { intros s. case_match; cbn; repeat split; try done.
    intros t Hlt. by rewrite lookup_insert_ne by lia. }
  match goal with |- context [if _ then snd (setTimeout _ ?s) else _] =>
    set (s4 := s)
  end.
  destruct (Hfollow s4) as (-> & -> & Hto).
  assert (games s4 !! gid = Some (set_moveWaiters g3 [])) as ->
    by (subst s4; cbn [games with_games]; apply lookup_insert_eq).
  assert (players s4 = players st) as ->
    by (subst s4; cbn [players with_games]; by autorewrite with srv).
  assert (timeouts s4 = timeouts st3 ∧ nextTimer s4 = nextTimer st3) as [Hts4 Hns4]
    by (subst s4; cbn [timeouts nextTimer with_games]; by autorewrite with srv).
  split; [done |].
  cbn [turn moves botDifficulty botSide set_moveWaiters].
  split; [by rewrite Ht3, Ht |]. split; [congruence |].
  split; [by rewrite Hb3, Hb |]. split; [by rewrite Hs3, Hs |].
  split; [done |].
  intros t Ht' Hlt. destruct (Hto3 t Ht' Hlt) as [Hnone Hlt3].
  rewrite Hto, Hts4; [done | by rewrite Hns4].
Qed.

Lemma fireTimeout_cleared t now rs st :
  timeouts st !! t = None → fireTimeout t now rs st = st.
Proof. intros H. unfold fireTimeout. by rewrite H. Qed.

Lemma truthy_autofill (m : option string) :
  truthy (if truthy m then m else Some "advance") = true.
Proof. by destruct (truthy m) eqn:E. Qed.

Lemma fireTimeout_armed st gid g t now rs :
  games st !! gid = Some g → phase g = input →
  timeouts st !! t = Some (TurnTimeout gid) →
  ∃ g',
    games (fireTimeout t now rs st) !! gid = Some g' ∧
    turn g' = turn g + 1 ∧ moves g' = mkMoves None None ∧
    botDifficulty g' = botDifficulty g ∧
    players (fireTimeout t now rs st) = players st.
Proof.
  intros Hg Hp Ht. unfold fireTimeout. rewrite Ht.
  cbn [runCallback clearTimeout games with_timeouts]. rewrite Hg.
  match goal with |- context [resolveIfReady gid now ?r ?s] =>
    match s with context [<[gid := ?g0]> _] =>
      destruct (resolveIfReady_ready gid now r s g0)
        as (g' & Hg' & Ht' & Hm' & Hb' & _ & Hpl & _)
    end
  end.
  - cbn [games with_games]. apply lookup_insert_eq.
  - done.
  - cbn. apply truthy_autofill.
  - cbn. apply truthy_autofill.
  - exists g'. by repeat split.
Qed.

Lemma api_move_before_expiry body now rs st gid g t :
  timerArmed st gid g t → submissionFor st gid body →
  (∃ g1, timerArmed (fst (api_move body now rs st)) gid g1 t ∧ turn g1 = turn g) ∨
  (∃ g1, games (fst (api_move body now rs st)) !! gid = Some g1 ∧
         turn g1 = turn g + 1 ∧
         timeouts (fst (api_move body now rs st)) !! t = None).
Proof.
  intros (Hg & Hp & Htt & Hto & Hlt) (tok & info & Htok & Hpl & <-).
  assert (timerArmed st (gameId info) g t) as Harmed by done.
  destruct (decide (tok = "")) as [-> | Hne].
  { left. exists g. unfold api_move. rewrite Htok. done. }
  rewrite (api_move_known body now rs st info g) by (by exists tok).
  destruct (truthy (mb_move body)); cbn [negb]; [| left; by exists g].
  rewrite Hp.
  destruct (truthy (get_move (moves g) (playerId info))); [left; by exists g |].
  destruct (validateMove (default "" (mb_move body))); cbn [negb];
    [| left; by exists g].
  cbv zeta.
  set (game0 := set_moves g _).
  match goal with |- context [if ?c then ?a else game0] =>
    set (game := if c then a else game0)
  end.
  assert (phase game = input ∧ turn game = turn g ∧ turnTimer game = Some t)
    as (Hp' & Ht' & Htt').
  { subst game game0. case_match; cbn; done. }
  destruct (truthy (m_p1 (moves game)) && truthy (m_p2 (moves game))) eqn:Hboth.
  - right. apply andb_true_iff in Hboth as [H1 H2]. cbn [fst].
    destruct (resolveIfReady_ready (gameId info) now (d_hit rs)
                (with_games st (<[gameId info := game]> (games st))) game)
      as (g1 & Hg1 & Ht1 & _ & _ & _ & _ & Hclr);
      [cbn; apply lookup_insert_eq | done | done | done |].
    exists g1. repeat split; [done | lia |]. by apply Hclr.
  - left. destruct (mb_wait body); cbn [fst].
    + exists (set_moveWaiters game
                (moveWaiters game ++ [default "" (mb_token body)])).
      split; [| exact Ht'].
      unfold timerArmed.
      cbn [games with_games timeouts nextTimer phase turnTimer set_moveWaiters].
      rewrite lookup_insert_eq. done.
    + exists game. split; [| done]. unfold timerArmed.
      cbn [games with_games timeouts nextTimer].
      rewrite lookup_insert_eq. done.
Qed.

Lemma api_move_after_expiry body now rs st gid g :
  games st !! gid = Some g → moves g = mkMoves None None →
  submissionFor st gid body →
  ∃ g1, games (fst (api_move body now rs st)) !! gid = Some g1 ∧
        (turn g1 = turn g ∨
         (turn g1 = turn g + 1 ∧ truthy (botDifficulty g) = true)).
Proof.
  intros Hg Hm (tok & info & Htok & Hpl & <-).
  destruct (decide (tok = "")) as [-> | Hne].
  { exists g. unfold api_move. rewrite Htok. cbn. auto. }
  rewrite (api_move_known body now rs st info g) by (by exists tok).
  destruct (truthy (mb_move body)); cbn [negb]; [| exists g; auto].
  destruct (phase g) eqn:Hp; [| exists g; auto].
  destruct (truthy (get_move (moves g) (playerId info))); [exists g; auto |].
  destruct (validateMove (default "" (mb_move body))); cbn [negb];
    [| exists g; auto].
  cbv zeta.
  set (game0 := set_moves g _).
  match goal with |- context [if ?c then ?a else game0] =>
    set (game := if c then a else game0)
  end.
  assert (phase game = input ∧ turn game = turn g) as (Hp' & Ht').
  { subst game game0. case_match; cbn; done. }
  destruct (truthy (m_p1 (moves game)) && truthy (m_p2 (moves game))) eqn:Hboth.
  - apply andb_true_iff in Hboth as [H1 H2]. cbn [fst].
    destruct (resolveIfReady_ready (gameId info) now (d_hit rs)
                (with_games st (<[gameId info := game]> (games st))) game)
      as (g1 & Hg1 & Ht1 & _);
      [cbn; apply lookup_insert_eq | done | done | done |].
    exists g1. split; [done |]. right. split; [lia |].
    destruct (truthy (botDifficulty g)) eqn:Hbot; [done |].
    exfalso. subst game game0. cbn [botDifficulty set_moves] in *.
    rewrite Hbot in *. cbn [andb] in *. rewrite Hm in *.
    destruct (playerId info); cbn in *; congruence.
  - destruct (mb_wait body); cbn [fst].
    + eexists. split; [cbn; by rewrite lookup_insert_eq |]. cbn. auto.
    + exists game. split; [cbn; by rewrite lookup_insert_eq |]. auto.
Qed.

Lemma resolveIfReady_once gid now rnd now' rnd' st :
  resolveIfReady gid now' rnd' (resolveIfReady gid now rnd st)
  = resolveIfReady gid now rnd st.
Proof.
  assert ((∃ g, games st !! gid = Some g ∧ phase g = input ∧
                truthy (m_p1 (moves g)) = true ∧
                truthy (m_p2 (moves g)) = true) ∨
          ¬ (∃ g, games st !! gid = Some g ∧ phase g = input ∧
                  truthy (m_p1 (moves g)) = true ∧
                  truthy (m_p2 (moves g)) = true))
    as [(g & Hg & Hp & H1 & H2) | Hidle].
  { destruct (games st !! gid) as [g |]; [| right; by intros (? & ? & _)].
    destruct (phase g) eqn:Hp;
      [| right; intros (? & ? & ? & _); simplify_eq; congruence].
    destruct (truthy (m_p1 (moves g))) eqn:H1;
      [| right; intros (? & ? & ? & ? & _); simplify_eq; congruence].
    destruct (truthy (m_p2 (moves g))) eqn:H2;
      [| right; intros (? & ? & ? & ? & ?); simplify_eq; congruence].
    left. by exists g. }
  - destruct (resolveIfReady_ready gid now rnd st g Hg Hp H1 H2)
      as (g' & Hg' & _ & Hm & _).
    apply resolveIfReady_idle. intros g'' Hg''.
    rewrite Hg' in Hg''. injection Hg'' as <-. rewrite Hm. auto.
  - assert (∀ g, games st !! gid = Some g →
              phase g = over ∨ truthy (m_p1 (moves g)) = false
              ∨ truthy (m_p2 (moves g)) = false) as Hcond.
    { intros g Hg. destruct (phase g) eqn:Hp; [| auto].
      destruct (truthy (m_p1 (moves g))) eqn:H1; [| auto].
      destruct (truthy (m_p2 (moves g))) eqn:H2; [| auto].
      destruct Hidle. by exists g. }
    rewrite (resolveIfReady_idle gid now rnd st Hcond).
    by apply resolveIfReady_idle.
Qed.

(** C4 (as stated) fails in a bot-controlled session: with the expiry
    processed first and the submission second, both pending at turn 0 of
    the practice game, the turn number ends at 2. *)
Lemma expiry_then_submission_in_practice_game_advances_two_turns :
  timerArmed beforeRestart "bot_1" practiceGame 0 ∧
  submissionFor beforeRestart "bot_1" (mkMoveBody (Some "tokA") (Some "advance") false) ∧
  turn practiceGame = 0 ∧
  turnOf "bot_1"
    (step (EvMove (mkMoveBody (Some "tokA") (Some "advance") false)) 301001 noDraws
       (step (EvTimeout 0) 301000 noDraws beforeRestart))
  = Some 2.
Proof.
  split; [| split; [| split]].
  - repeat split; try (by vm_compute); vm_compute; lia.
  - exists "tokA", (mkPlayerInfo "bot_1" P1 (Some "Player")). by vm_compute.
  - by vm_compute.
  - by vm_compute.
Qed.

(** C4 (amended). Take a session in its input phase with its turn timer
    armed, and a move submission by one of its participants, both pending
    at the same turn.  If the submission is processed first, the turn
    number has incremented exactly once after both.  If the expiry is
    processed first, it has incremented exactly once when the session is
    not bot-controlled, and once or twice when it is: the late
    submission is taken as the next turn's move and, with the bot's
    immediate reply, may resolve that turn too.  [resolveIfReady] resolves
    at most once for the moves present (calling it again right away
    changes nothing), and when it resolves it has cleared the armed
    timer, whose expiry then no longer runs. *)
Theorem one_resolution_per_turn_under_timer_race (st : Server) (gid : string)
    (g : Game) (t : nat) (body : MoveBody) (now1 now2 : Z) (rs1 rs2 : Draws) :
  timerArmed st gid g t →
  submissionFor st gid body →
  turnOf gid (step (EvTimeout t) now2 rs2 (step (EvMove body) now1 rs1 st))
    = Some (turn g + 1) ∧
  (truthy (botDifficulty g) = false →
   turnOf gid (step (EvMove body) now2 rs2 (step (EvTimeout t) now1 rs1 st))
     = Some (turn g + 1)) ∧
  (∃ n, turnOf gid (step (EvMove body) now2 rs2 (step (EvTimeout t) now1 rs1 st))
          = Some n ∧ turn g + 1 ≤ n ≤ turn g + 2) ∧
  (∀ now rnd now' rnd',
     resolveIfReady gid now' rnd' (resolveIfReady gid now rnd st)
     = resolveIfReady gid now rnd st) ∧
  (∀ now rnd,
     truthy (m_p1 (moves g)) = true → truthy (m_p2 (moves g)) = true →
     turnOf gid (resolveIfReady gid now rnd st) = Some (turn g + 1) ∧
     timeouts (resolveIfReady gid now rnd st) !! t = None ∧
     step (EvTimeout t) now2 rs2 (resolveIfReady gid now rnd st)
     = resolveIfReady gid now rnd st).
Proof.
  intros Harmed Hsub.
  pose proof Harmed as (Hg & Hp & Htt & Hto & Hlt).
  assert (∃ g', games (fireTimeout t now1 rs1 st) !! gid = Some g' ∧
                turn g' = turn g + 1 ∧ moves g' = mkMoves None None ∧
                botDifficulty g' = botDifficulty g ∧
                submissionFor (fireTimeout t now1 rs1 st) gid body)
    as (g' & Hg' & Ht' & Hm' & Hb' & Hsub').
  { destruct (fireTimeout_armed st gid g t now1 rs1 Hg Hp Hto)
      as (g' & ? & ? & ? & ? & Hpl).
    exists g'. repeat split; try done.
    destruct Hsub as (tok & info & ? & ? & ?).
    exists tok, info. by rewrite Hpl. }
  destruct (api_move_after_expiry body now2 rs2 _ gid g' Hg' Hm' Hsub')
    as (g2 & Hg2 & Hturn).
  split; [| split; [| split; [| split]]].
  - cbn [step].
    destruct (api_move_before_expiry body now1 rs1 st gid g t Harmed Hsub)
      as [(g1 & (Hg1 & Hp1 & _ & Hto1 & _) & Ht1) | (g1 & Hg1 & Ht1 & Hclr)].
    + destruct (fireTimeout_armed _ gid g1 t now2 rs2 Hg1 Hp1 Hto1)
        as (g3 & Hg3 & Ht3 & _).
      unfold turnOf. rewrite Hg3. cbn. f_equal. lia.
    + rewrite (fireTimeout_cleared t now2 rs2 _ Hclr).
      unfold turnOf. rewrite Hg1. cbn. by f_equal.
  - intros Hbot. cbn [step]. unfold turnOf. rewrite Hg2. cbn. f_equal.
    destruct Hturn as [-> | [_ Hyes]]; [done | congruence].
  - exists (turn g2). cbn [step]. unfold turnOf. rewrite Hg2.
    split; [done |]. destruct Hturn as [-> | [-> _]]; lia.
  - intros. apply resolveIfReady_once.
  - intros now rnd H1 H2.
    destruct (resolveIfReady_ready gid now rnd st g Hg Hp H1 H2)
      as (g3 & Hg3 & Ht3 & _ & _ & _ & _ & Hclr).
    unfold turnOf. rewrite Hg3. cbn [step].
    split; [cbn; by f_equal |].
    split; [by apply Hclr |].
    apply fireTimeout_cleared. by apply Hclr.
Qed.

Lemma one_resolution_per_turn_under_timer_race_witness :
  turnOf "g1"
    (step (EvTimeout 0) 301000 noDraws
       (step (EvMove (mkMoveBody (Some "tokAnn") (Some "lunge") false)) 300999
          noDraws duelStart))
  = Some (turn duelGame + 1) ∧
  turnOf "g1"
    (step (EvMove (mkMoveBody (Some "tokAnn") (Some "lunge") false)) 301001
       noDraws (step (EvTimeout 0) 301000 noDraws duelStart))
  = Some (turn duelGame + 1).
Proof.
  assert (timerArmed duelStart "g1" duelGame 0) as Harmed.
  { refine (conj _ (conj _ (conj _ (conj _ _))));
      [vm_compute; reflexivity .. | vm_compute; lia]. }
  assert (submissionFor duelStart "g1"
            (mkMoveBody (Some "tokAnn") (Some "lunge") false)) as Hsub.
  { exists "tokAnn", (mkPlayerInfo "g1" P1 (Some "Ann")).
    refine (conj _ (conj _ _)); vm_compute; reflexivity. }
  assert (truthy (botDifficulty duelGame) = false) as Hbot
    by (vm_compute; reflexivity).
  split.
  - exact (proj1 (one_resolution_per_turn_under_timer_race duelStart "g1"
                    duelGame 0 (mkMoveBody (Some "tokAnn") (Some "lunge") false)
                    300999 301000 noDraws noDraws Harmed Hsub)).
  - exact (proj1 (proj2 (one_resolution_per_turn_under_timer_race duelStart "g1"
                    duelGame 0 (mkMoveBody (Some "tokAnn") (Some "lunge") false)
                    301000 301001 noDraws noDraws Harmed Hsub)) Hbot).
Defined.

(** ** Session ids across a restart *)



(** C5 (the code misses it). The counter rebuilt at start-up only looks
    at ids of the form g<digits>; the practice session "bot_1" that was
    live before the restart is reloaded, the counter is rebuilt as 1, and
    the next practice request mints "bot_1" again, for another player. *)
Theorem restart_reuses_practice_session_id :
  (∃ g, games beforeRestart !! "bot_1" = Some g ∧ phase g = input ∧
        p1Token g = Some "tokA") ∧
  (∃ g, games afterRestart !! "bot_1" = Some g ∧ phase g = input ∧
        p1Token g = Some "tokA") ∧
  gameNumber "bot_1" = 0%N ∧
  gameIdCounter afterRestart = 1%N ∧
  (∃ state sj,
     snd (api_practice practiceDefault "tokB" 3000 afterRestart)
     = RMatched "tokB" "bot_1" P1 "Bot(medium)" state sj) ∧
  (∃ g, games (fst (api_practice practiceDefault "tokB" 3000 afterRestart))
          !! "bot_1" = Some g ∧ p1Token g = Some "tokB").
Proof.
  repeat split; try (eexists; by vm_compute); try (eexists _, _; by vm_compute);
    by vm_compute.
Qed.

(** ** Finished sessions stay registered *)

Lemma resolveIfReady_other gid now rnd st other :
  other ≠ gid →
  games (resolveIfReady gid now rnd st) !! other = games st !! other.
Proof.
  intros Hne. unfold resolveIfReady.
  destruct (games st !! gid) as [g |]; [| done].
  destruct (phase g); [| done].
  case_match; [done |].
  destruct (resolveTurn (set_turnTimer g None) rnd) as [g1 log].
  set (st1 := match turnTimer g with
              | Some t => clearTimeout t st
              | None => st
              end).
  assert (games st1 = games st) as Hg1
    by (subst st1; by destruct (turnTimer g)).
  rewrite Hg1.
  set (st2 := with_games st1 (<[gid:=g1]> (games st))).
  set (st3 := match phase g1 with
              | input => startTurnTimer gid st2
              | over => archiveGame g1 now st2
              end).
  assert (games st3 !! other = games st !! other) as Hg3.
  { subst st3. destruct (phase g1).
    - rewrite lookup_startTurnTimer_ne by done. subst st2. cbn.
      by rewrite lookup_insert_ne.
    - subst st2. cbn. by rewrite lookup_insert_ne. }
  match goal with |- context [if ?c then snd (setTimeout ?cb ?s) else _] =>
    assert (games (if c then snd (setTimeout cb s) else s) = games s) as ->
      by (destruct c; done)
  end.
  cbn [games with_games]. autorewrite with srv.
  by rewrite lookup_insert_ne.
Qed.

Lemma resolveIfReady_over gid now rnd st g :
  games st !! gid = Some g → phase g = over →
  resolveIfReady gid now rnd st = st.
Proof.
  intros Hg Hp. apply resolveIfReady_idle. intros g' Hg'.
  rewrite Hg in Hg'. injection Hg' as <-. auto.
Qed.

Lemma purgeStale_games now q st : games (purgeStale now q st) = games st.
Proof.
  revert st. induction q as [| e q IH]; intros st; simpl; [done |].
  case_match; [| done]. by rewrite IH.
Qed.

Lemma purgeStale_gameIdCounter now q st :
  gameIdCounter (purgeStale now q st) = gameIdCounter st.
Proof.
  revert st. induction q as [| e q IH]; intros st; simpl; [done |].
  case_match; [| done]. by rewrite IH.
Qed.

Lemma api_move_keeps_over body now rs st gid g :
  games st !! gid = Some g → phase g = over →
  games (fst (api_move body now rs st)) !! gid = Some g.
Proof.
  intros Hg Hp. unfold api_move.
  destruct (truthy (mb_token body)); [| done].
  destruct (truthy (mb_move body)); [| done].
  cbn [negb].
  destruct (players st !! _) as [info |]; [| done].
  destruct (games st !! gameId info) as [g2 |] eqn:Hg2; [| done].
  destruct (decide (gid = gameId info)) as [-> | Hne].
  { rewrite Hg in Hg2. injection Hg2 as <-. by rewrite Hp. }
  destruct (phase g2); [| done].
  destruct (truthy (get_move _ _)); [done |].
  destruct (validateMove _); cbn [negb]; [| done].
  cbv zeta.
  match goal with |- context [if ?c then (resolveIfReady _ _ _ _, _) else _] =>
    destruct c
  end.
  - cbn [fst]. rewrite resolveIfReady_other by done.
    cbn. by rewrite lookup_insert_ne.
  - destruct (mb_wait body); cbn; by rewrite !lookup_insert_ne.
Qed.

(** No event removes a finished session from the registry or changes
    what the state endpoint reports of it, except by registering a new
    session under the same id. *)
Lemma over_session_retained ev now rs st gid g :
  games st !! gid = Some g → phase g = over →
  mintedId ev st ≠ Some gid →
  ∃ g', games (step ev now rs st) !! gid = Some g' ∧
        terminalView g' = terminalView g.
Proof.
  intros Hg Hp Hmint.
  assert (∀ gid2 rnd s g2,
            games s !! gid = Some g2 → terminalView g2 = terminalView g →
            ∃ g', games (resolveIfReady gid2 now rnd s) !! gid = Some g' ∧
                  terminalView g' = terminalView g) as Hres.
  { intros gid2 rnd s g2 Hg2 Hv. destruct (decide (gid = gid2)) as [<- | Hne].
    - rewrite (resolveIfReady_over gid now rnd s g2 Hg2); [eauto |].
      unfold terminalView in Hv. congruence.
    - rewrite resolveIfReady_other by done. eauto. }
  assert (∀ gid2 (f : Game → Game) s,
            games s !! gid = Some g →
            (∀ x, terminalView (f x) = terminalView x) →
            ∀ g2, games s !! gid2 = Some g2 →
            ∃ g', <[gid2 := f g2]> (games s) !! gid = Some g' ∧
                  terminalView g' = terminalView g) as Hins.
  { intros gid2 f s Hs Hf g2 Hg2. destruct (decide (gid = gid2)) as [<- | Hne].
    - rewrite lookup_insert_eq. assert (g2 = g) as -> by congruence. eauto.
    - rewrite lookup_insert_ne by done. eauto. }
  destruct ev as [body token ip | body | body token | body tok1 tok2 | t];
    cbn [step mintedId] in *.
  - (* join *)
    unfold api_join.
    set (s1 := purgeStale now (queue st) st).
    assert (games s1 !! gid = Some g) as Hg1
      by (subst s1; by rewrite purgeStale_games).
    assert (gameIdCounter s1 = gameIdCounter st) as Hc1
      by (subst s1; by rewrite purgeStale_gameIdCounter).
    destruct (findIndex _ (queue s1)) as [i |]; [| by exists g].
    destruct (queue s1 !! i) as [opp |]; [| by exists g].
    unfold matchPlayers. cbn [fst]. autorewrite with srv.
    rewrite lookup_startTurnTimer_ne
      by (cbn; rewrite Hc1; congruence).
    cbn. rewrite lookup_insert_ne by (rewrite Hc1; congruence). eauto.
  - (* move *)
    exists g. split; [| done]. by apply api_move_keeps_over.
  - (* practice *)
    unfold api_practice. cbn [fst]. autorewrite with srv.
    rewrite lookup_startTurnTimer_ne by (cbn; congruence).
    cbn. rewrite lookup_insert_ne by congruence. eauto.
  - (* exhibition *)
    unfold api_exhibition. case_match; [case_match; by exists g |].
    cbn [fst snd setTimeout games with_timeouts]. autorewrite with srv.
    cbn. rewrite lookup_insert_ne by congruence. eauto.
  - (* timeout *)
    unfold fireTimeout. destruct (timeouts st !! t) as [cb |]; [| by exists g].
    destruct cb as [gid2 | gid2 | gid2]; cbn [runCallback clearTimeout games with_timeouts].
    + destruct (games st !! gid2) as [g2 |] eqn:Hg2; [| by exists g].
      match goal with |- context [<[gid2 := ?x]> _] =>
        destruct (Hins gid2 (fun y => set_moves y (moves x)) st Hg
                    ltac:(done) g2 Hg2) as (g' & Hg' & Hv')
      end.
      eapply Hres; [| exact Hv']. cbn. exact Hg'.
    + destruct (games st !! gid2) as [g2 |] eqn:Hg2; [| by exists g].
      match goal with |- context [<[gid2 := ?x]> _] =>
        destruct (Hins gid2 (fun y => set_moves y (moves x)) st Hg
                    ltac:(done) g2 Hg2) as (g' & Hg' & Hv')
      end.
      eapply Hres; [| exact Hv']. cbn. exact Hg'.
    + destruct (games st !! gid2) as [g2 |] eqn:Hg2; [| by exists g].
      destruct (is_over (phase g2)); [by exists g |].
      match goal with |- context [<[gid2 := ?x]> _] =>
        destruct (Hins gid2 (fun y => set_moves y (moves x)) st Hg
                    ltac:(done) g2 Hg2) as (g' & Hg' & Hv')
      end.
      match goal with |- context [resolveIfReady gid2 now ?r ?s] =>
        destruct (Hres gid2 r s g' Hg' Hv') as (g'' & Hg'' & Hv'')
      end.
      case_match; [eauto |]. cbn. eauto.
Qed.

Lemma resolveIfReady_players gid now rnd st :
  players (resolveIfReady gid now rnd st) = players st.
Proof.
  assert ((∃ g, games st !! gid = Some g ∧ phase g = input ∧
                truthy (m_p1 (moves g)) = true ∧
                truthy (m_p2 (moves g)) = true) ∨
          resolveIfReady gid now rnd st = st) as [(g & Hg & Hp & H1 & H2) | ->];
    [| | done].
  { unfold resolveIfReady.
    destruct (games st !! gid) as [g |]; [| by right].
    destruct (phase g) eqn:Hp; [| by right].
    destruct (truthy (m_p1 (moves g))) eqn:H1; [| by right].
    destruct (truthy (m_p2 (moves g))) eqn:H2; [| by right].
    left. by exists g. }
  by destruct (resolveIfReady_ready gid now rnd st g Hg Hp H1 H2)
    as (? & _ & _ & _ & _ & _ & ? & _).
Qed.

Lemma purgeStale_players now q st : players (purgeStale now q st) = players st.
Proof.
  revert st. induction q as [| e q IH]; intros st; simpl; [done |].
  case_match; [| done]. by rewrite IH.
Qed.

Lemma purgeStale_queue_tokens now q st tok :
  queue st = q →
  tok ∉ map q_token q → tok ∉ map q_token (queue (purgeStale now q st)).
Proof.
  revert st. induction q as [| e q IH]; intros st Hq Hnot; simpl.
  - by rewrite Hq.
  - case_match; [| by rewrite Hq].
    apply IH; [done |]. intros Hin. apply Hnot. cbn. by apply list_elem_of_further.
Qed.

(** Token bindings are only ever added, and only for the tokens of the
    event at hand. *)
Lemma binding_retained ev now rs st tok :
  tok ∉ boundTokens ev st →
  players (step ev now rs st) !! tok = players st !! tok.
Proof.
  intros Hnot.
  destruct ev as [body token ip | body | body token | body tok1 tok2 | t];
    cbn [step boundTokens] in *.
  - unfold api_join.
    set (s1 := purgeStale now (queue st) st).
    assert (players s1 = players st) as Hp1
      by (subst s1; apply purgeStale_players).
    assert (tok ∉ map q_token (queue s1)) as Hq1.
    { subst s1. apply purgeStale_queue_tokens; [done |].
      intros Hin. apply Hnot. by apply list_elem_of_further. }
    assert (tok ≠ token) as Hne
      by (intros ->; apply Hnot; apply list_elem_of_here).
    destruct (findIndex _ (queue s1)) as [i |]; [| cbn; by rewrite Hp1].
    destruct (queue s1 !! i) as [opp |] eqn:Hopp; [| cbn; by rewrite Hp1].
    assert (tok ≠ q_token opp) as Hne'.
    { intros ->. apply Hq1. apply list_elem_of_fmap. exists opp.
      split; [done |]. by eapply list_elem_of_lookup_2. }
    unfold matchPlayers. cbn [fst]. autorewrite with srv. cbn.
    by rewrite !lookup_insert_ne, Hp1.
  - unfold api_move. repeat case_match; cbn [fst players with_games]; try done;
      by rewrite resolveIfReady_players.
  - unfold api_practice. cbn [fst]. autorewrite with srv. cbn.
    rewrite lookup_insert_ne; [done |].
    intros ->. apply Hnot. apply list_elem_of_here.
  - unfold api_exhibition. case_match; [by case_match |].
    cbn [fst snd setTimeout]. cbn. autorewrite with srv. cbn.
    rewrite !lookup_insert_ne; [done | |]; intros ->; apply Hnot.
    + apply list_elem_of_here.
    + apply list_elem_of_further, list_elem_of_here.
  - unfold fireTimeout. destruct (timeouts st !! t) as [cb |]; [| done].
    destruct cb as [gid2 | gid2 | gid2]; cbn [runCallback];
      repeat case_match; cbn; rewrite ?resolveIfReady_players; done.
Qed.

Lemma api_state_over tok st info g :
  players st !! tok = Some info → games st !! gameId info = Some g →
  phase g = over →
  api_state tok st =
  RState "game_over" (turn g) over (compactState g (playerId info))
    (getGameState g (playerId info)) (winner g) (gameId info) (playerId info)
    false.
Proof. intros Hp Hg Ho. unfold api_state. rewrite Hp, Hg, Ho. done. Qed.

Lemma terminalView_state g g' p :
  terminalView g' = terminalView g →
  getGameState g' p = getGameState g p ∧ compactState g' p = compactState g p.
Proof.
  unfold terminalView. intros [= Hph Ht Hd Hs Hl Hw Hm].
  assert (getGameState g' p = getGameState g p) as Hgs
    by (unfold getGameState; by rewrite Hph, Ht, Hd, Hs, Hl, Hw, Hm).
  split; [done |]. unfold compactState. by rewrite Hgs.
Qed.

(** For a finished game the state endpoint keeps giving the same
    [game_over] answer to a participant after any event that neither
    registers a session under the same id nor rebinds the token. *)
Lemma state_of_finished_game_stable ev now rs st tok info g :
  players st !! tok = Some info → games st !! gameId info = Some g →
  phase g = over →
  mintedId ev st ≠ Some (gameId info) → tok ∉ boundTokens ev st →
  api_state tok (step ev now rs st) = api_state tok st ∧
  status_of (api_state tok st) = Some "game_over".
Proof.
  intros Hp Hg Ho Hmint Hbound.
  destruct (over_session_retained ev now rs st (gameId info) g Hg Ho Hmint)
    as (g' & Hg' & Hv).
  pose proof (binding_retained ev now rs st tok Hbound) as Hp'.
  rewrite Hp in Hp'.
  assert (phase g' = over) as Ho'
    by (unfold terminalView in Hv; congruence).
  rewrite (api_state_over tok _ info g' Hp' Hg' Ho').
  rewrite (api_state_over tok st info g Hp Hg Ho).
  destruct (terminalView_state g g' (playerId info) Hv) as [-> ->].
  unfold terminalView in Hv. injection Hv as _ -> _ _ _ -> _. done.
Qed.

(** C10 (the code misses it). After the restart "tokA" finishes the
    reloaded game "bot_1" and is told [game_over]; the next practice game
    is registered under the same id "bot_1", replaces the finished
    session in the registry, and "tokA" is then told [your_turn] in a
    game that is not theirs. *)
Theorem finished_session_replaced_under_reused_id :
  (∃ g, games playedOut !! "bot_1" = Some g ∧ phase g = over ∧
        winner g = Some sudden_death ∧ p1Token g = Some "tokA") ∧
  mintedId (EvPractice practiceDefault "tokB") playedOut = Some "bot_1" ∧
  players playedOut !! "tokA" = Some (mkPlayerInfo "bot_1" P1 (Some "Player")) ∧
  status_of (api_state "tokA" playedOut) = Some "game_over" ∧
  (∃ g, games afterSecondPractice !! "bot_1" = Some g ∧ phase g = input ∧
        turn g = 0 ∧ p1Token g = Some "tokB") ∧
  players afterSecondPractice !! "tokA"
    = Some (mkPlayerInfo "bot_1" P1 (Some "Player")) ∧
  status_of (api_state "tokA" afterSecondPractice) = Some "your_turn".
Proof.
  repeat split; try (eexists; by vm_compute); by vm_compute.
Qed.

(** ** Worked examples *)

Example double_hit_at_distance_one :
  let g := resolved (sampleGame (Some "lunge") (Some "lunge") 1) 0 in
  scores g = mkScores 1 1 ∧ distance g = 1 ∧ turn g = 1 ∧
  moves g = mkMoves None None ∧ phase g = input ∧
  lastResult g = "Both fencers lunge simultaneously at close range → DOUBLE HIT!".
Proof. by vm_compute. Qed.

Example riposte_resets_distance :
  let g := resolved (sampleGame (Some "lunge") (Some "parry") 2) 0 in
  scores g = mkScores 0 1 ∧ distance g = 4 ∧
  lastResult g = "P1 lunges → P2 PARRIES → RIPOSTE! P2 scores. Distance resets to 4.".
Proof. by vm_compute. Qed.

Example three_advances_end_in_a_clash :
  let g1 := resolved (sampleGame (Some "advance") (Some "advance") 4) 0 in
  let g2 := resolved (set_moves g1 (mkMoves (Some "advance") (Some "advance"))) 0 in
  let g3 := resolved (set_moves g2 (mkMoves (Some "advance") (Some "advance"))) 0 in
  distance g1 = 2 ∧ lastResult g1 = "P1 advances, P2 advances." ∧
  distance g2 = 1 ∧ distance g3 = 1 ∧
  lastResult g3 = "Both fencers advance → CLASH! Distance stays at 1.".
Proof. by vm_compute. Qed.

Example third_touch_ends_the_game :
  let g := resolved
             (set_scores (sampleGame (Some "lunge") (Some "advance") 1)
                (mkScores 2 0)) 0 in
  phase g = over ∧ winner g = Some win_p1 ∧ scores g = mkScores 3 0.
Proof. by vm_compute. Qed.

Example turn_limit_tie_is_sudden_death :
  let g := resolved
             (set_turn (sampleGame (Some "retreat") (Some "parry") 4) 29) 0 in
  turn g = 30 ∧ phase g = over ∧ winner g = Some sudden_death.
Proof. by vm_compute. Qed.

Example same_name_other_origin_is_matched :
  let st1 := fst (api_join (mkJoinBody (Some "Ann") false) "tok1"
                    (ip_str "10.0.0.1") 1000 (startup [] [] 0)) in
  is_matched (snd (api_join (mkJoinBody (Some "Ann") false) "tok2"
                     (ip_str "10.0.0.1") 2000 st1)) = false ∧
  is_matched (snd (api_join (mkJoinBody (Some "Ann") false) "tok3"
                     (ip_str "10.0.0.9") 2000 st1)) = true.
Proof. by vm_compute. Qed.

Example stale_head_is_purged_before_matching :
  let st1 := fst (api_join (mkJoinBody (Some "Ann") false) "tok1"
                    (ip_str "10.0.0.1") 1000 (startup [] [] 0)) in
  map q_token (purgedQueue 400000 st1) = [] ∧
  snd (api_join (mkJoinBody (Some "Bob") false) "tok2" (ip_str "10.0.0.2")
         400000 st1) = RQueued "tok2".
Proof. by vm_compute. Qed.

(** * Further properties of the code *)

(** ** The rules, read as a whole *)

Lemma resolveRules_flags (m1 m2 : string) d rnd :
  validateMove m1 = true → validateMove m2 = true →
  let o := resolveRules (Some m1) (Some m2) d rnd in
  scoreP1 o =
    (String.eqb m1 "lunge" && negb (String.eqb m2 "parry")
       && ((d =? 1) || ((d =? 2) && Qltb rnd (1 # 2))))
    || (String.eqb m1 "parry" && String.eqb m2 "lunge") ∧
  scoreP2 o =
    (String.eqb m2 "lunge" && negb (String.eqb m1 "parry")
       && negb (String.eqb m1 "lunge")
       && ((d =? 1) || ((d =? 2) && Qltb rnd (1 # 2))))
    || (String.eqb m2 "lunge" && String.eqb m1 "lunge" && (d =? 1))
    || (String.eqb m2 "parry" && String.eqb m1 "lunge").
Proof.
  intros H1 H2.
  apply validateMove_cases in H1 as [-> | [-> | [-> | ->]]];
    apply validateMove_cases in H2 as [-> | [-> | [-> | ->]]];
    unfold resolveRules;
    cbn -[Z.max Z.min Z.eqb Qltb applyOther Z.add distanceChange movements];
    destruct (d =? 1); destruct (d =? 2); destruct (Qltb rnd (1 # 2));
    cbn -[Z.max Z.min Z.add]; repeat case_match; split; reflexivity.
Qed.

Lemma lands_spec d rnd :
  (d =? 1) || ((d =? 2) && Qltb rnd (1 # 2)) = true ↔ lands d rnd.
Proof.
  unfold lands. rewrite orb_true_iff, andb_true_iff, !Z.eqb_eq, Qltb_lt. done.
Qed.

(** X1. Who scores, for legal moves.  Player 1 scores exactly when their
    lunge lands on a non-parrying opponent, or when they parry a lunge.
    Player 2 scores exactly when their lunge lands on an opponent who
    neither parries nor lunges, or both lunge at distance 1, or they
    parry a lunge. *)
Theorem who_scores (g : Game) (m1 m2 : string) (rnd : Q) :
  validateMove m1 = true → validateMove m2 = true →
  moves g = mkMoves (Some m1) (Some m2) →
  (scoredBy P1 g (resolved g rnd) ↔
     (m1 = "lunge" ∧ m2 ≠ "parry" ∧ lands (distance g) rnd) ∨
     (m1 = "parry" ∧ m2 = "lunge")) ∧
  (scoredBy P2 g (resolved g rnd) ↔
     (m2 = "lunge" ∧ m1 ≠ "parry" ∧ m1 ≠ "lunge" ∧ lands (distance g) rnd) ∨
     (m2 = "lunge" ∧ m1 = "lunge" ∧ distance g = 1) ∨
     (m2 = "parry" ∧ m1 = "lunge")).
Proof.
  intros H1 H2 Hm.
  destruct (resolveRules_flags m1 m2 (distance g) rnd H1 H2) as [E1 E2].
  rewrite scoredBy_P1, scoredBy_P2, Hm. cbn [m_p1 m_p2].
  rewrite E1, E2.
  rewrite !orb_true_iff, !andb_true_iff, !negb_true_iff, lands_spec.
  rewrite !String.eqb_eq, !String.eqb_neq, Z.eqb_eq.
  tauto.
Qed.

Lemma who_scores_witness :
  (scoredBy P1 (sampleGame (Some "lunge") (Some "parry") 5)
     (resolved (sampleGame (Some "lunge") (Some "parry") 5) 0) ↔
     ("lunge" = "lunge" ∧ "parry" ≠ "parry" ∧
      lands (distance (sampleGame (Some "lunge") (Some "parry") 5)) 0) ∨
     ("lunge" = "parry" ∧ "parry" = "lunge")) ∧
  (scoredBy P2 (sampleGame (Some "lunge") (Some "parry") 5)
     (resolved (sampleGame (Some "lunge") (Some "parry") 5) 0) ↔
     ("parry" = "lunge" ∧ "lunge" ≠ "parry" ∧ "lunge" ≠ "lunge" ∧
      lands (distance (sampleGame (Some "lunge") (Some "parry") 5)) 0) ∨
     ("parry" = "lunge" ∧ "lunge" = "lunge" ∧
      distance (sampleGame (Some "lunge") (Some "parry") 5) = 1) ∨
     ("parry" = "parry" ∧ "lunge" = "lunge")).
Proof.
  apply (who_scores (sampleGame (Some "lunge") (Some "parry") 5)
           "lunge" "parry" 0); reflexivity.
Defined.

Lemma delta_cases (m : string) :
  validateMove m = true → m ≠ "lunge" →
  (m = "advance" ∧ delta m = -1) ∨ (m = "retreat" ∧ delta m = 1)
  ∨ (m = "parry" ∧ delta m = 0).
Proof.
  intros Hv Hl.
  apply validateMove_cases in Hv as [-> | [-> | [-> | ->]]]; try done; auto.
Qed.

(** X2. A turn without a lunge never scores: for legal moves it only
    moves the fencers, to the old distance plus both movement deltas
    (advance -1, retreat +1, parry 0), clamped to [1,6]. *)
Theorem no_lunge_only_moves (g : Game) (m1 m2 : string) (rnd : Q) :
  validateMove m1 = true → validateMove m2 = true →
  (m1 ≠ "lunge") → (m2 ≠ "lunge") →
  moves g = mkMoves (Some m1) (Some m2) →
  1 ≤ distance g ≤ 6 →
  scores (resolved g rnd) = scores g ∧
  distance (resolved g rnd) = clamp (distance g + delta m1 + delta m2).
Proof.
  intros H1 H2 Hl1 Hl2 Hm Hd.
  destruct (resolveTurn_fields g rnd) as (_ & Hd' & Hs1 & Hs2 & _).
  destruct (resolveRules_flags m1 m2 (distance g) rnd H1 H2) as [E1 E2].
  rewrite Hm in Hd', Hs1, Hs2. cbn [m_p1 m_p2] in Hd', Hs1, Hs2.
  assert (scoreP1 (resolveRules (Some m1) (Some m2) (distance g) rnd) = false)
    as F1.
  { rewrite E1. destruct (delta_cases m1 H1 Hl1) as [[-> _] | [[-> _] | [-> _]]];
      destruct (delta_cases m2 H2 Hl2) as [[-> _] | [[-> _] | [-> _]]]; done. }
  assert (scoreP2 (resolveRules (Some m1) (Some m2) (distance g) rnd) = false)
    as F2.
  { rewrite E2. destruct (delta_cases m1 H1 Hl1) as [[-> _] | [[-> _] | [-> _]]];
      destruct (delta_cases m2 H2 Hl2) as [[-> _] | [[-> _] | [-> _]]]; done. }
  unfold resetApplies in Hd'. rewrite F1, F2 in *. cbn [orb andb] in Hd'.
  assert (newDistance (resolveRules (Some m1) (Some m2) (distance g) rnd)
          = clamp (distance g + delta m1 + delta m2)) as Hn.
  { destruct (delta_cases m1 H1 Hl1) as [[-> ->] | [[-> ->] | [-> ->]]];
      destruct (delta_cases m2 H2 Hl2) as [[-> ->] | [[-> ->] | [-> ->]]];
      unfold resolveRules, applyOther, distanceChange, clamp;
      cbn -[Z.max Z.min Z.add Z.leb];
      repeat match goal with
             | |- context [?a <=? ?b] => destruct (Z.leb_spec a b)
             end; cbn [newDistance]; lia. }
  split; [by apply Scores_ext |]. unfold resolved. by rewrite Hd', Hn.
Qed.

Lemma no_lunge_only_moves_witness :
  scores (resolved (sampleGame (Some "retreat") (Some "parry") 6) 0)
    = scores (sampleGame (Some "retreat") (Some "parry") 6) ∧
  distance (resolved (sampleGame (Some "retreat") (Some "parry") 6) 0)
    = clamp (6 + delta "retreat" + delta "parry").
Proof.
  apply (no_lunge_only_moves (sampleGame (Some "retreat") (Some "parry") 6)
           "retreat" "parry" 0); [reflexivity | reflexivity | discriminate
                                 | discriminate | reflexivity | simpl; lia].
Defined.

(** ** The practice bot *)

Lemma Qfloor_times4 (r : Q) :
  (0 <= r)%Q → (r < 1)%Q → 0 ≤ Qfloor (r * 4) < 4.
Proof.
  intros H0 H1. split.
  - change 0 with (Qfloor 0). apply Qfloor_resp_le.
    apply Qmult_le_0_compat; [exact H0 | discriminate].
  - rewrite Zlt_Qlt. eapply Qle_lt_trans; [apply Qfloor_le |].
    change (inject_Z 4) with (1 * 4)%Q.
    apply Qmult_lt_r; [reflexivity | exact H1].
Qed.

Lemma botMove_legal (state : GameState) (difficulty : option string)
    (r1 r2 : Q) :
  (0 <= r1)%Q → (r1 < 1)%Q →
  ∃ m, botMove state difficulty r1 r2 = Some m ∧ validateMove m = true.
Proof.
  intros H0 H1. unfold botMove.
  destruct (String.eqb _ "easy").
  { pose proof (Qfloor_times4 r1 H0 H1) as Hf.
    destruct (Z.ltb_spec (Qfloor (r1 * 4)) 0) as [|_]; [lia |].
    assert (Z.to_nat (Qfloor (r1 * 4)) < 4)%nat as Hn by lia.
    destruct (Z.to_nat (Qfloor (r1 * 4))) as [|[|[|[|n]]]]; [..| lia];
      eexists; split; reflexivity. }
  repeat match goal with
         | |- context [if ?c then _ else _] => destruct c
         end; eexists; split; reflexivity.
Qed.

(** X3. Whatever the difficulty (also an unknown or a missing one),
    the position and the random draws in [0,1), [botMove] returns one of
    the four legal moves, so the server never rejects or skips a bot
    move. *)
Theorem botMove_is_legal (state : GameState) (difficulty : option string)
    (r1 r2 : Q) :
  (0 <= r1)%Q → (r1 < 1)%Q →
  ∃ m, botMove state difficulty r1 r2 = Some m ∧ validateMove m = true.
Proof. apply botMove_legal. Qed.

Lemma botMove_is_legal_witness :
  ∃ m, botMove (getGameState (createGame "g1") P2) (Some "easy") (3 # 4) 0
       = Some m ∧ validateMove m = true.
Proof.
  apply (botMove_is_legal (getGameState (createGame "g1") P2) (Some "easy")
           (3 # 4) 0); [discriminate | reflexivity].
Defined.

(** X4. The medium and the hard bot never waste a lunge or give ground
    when close: they lunge only at distance 1 or 2 (never from where a
    lunge whiffs) and retreat only at distance 3 or more. *)
Theorem bot_lunges_only_in_range (state : GameState) (difficulty : string)
    (r1 r2 : Q) :
  difficulty = "medium" ∨ difficulty = "hard" →
  (botMove state (Some difficulty) r1 r2 = Some "lunge" →
     gs_distance state = 1 ∨ gs_distance state = 2) ∧
  (botMove state (Some difficulty) r1 r2 = Some "retreat" →
     gs_distance state ≠ 1 ∧ gs_distance state ≠ 2).
Proof.
  intros [-> | ->]; unfold botMove; cbn [String.eqb Ascii.eqb Bool.eqb];
    cbv iota; cbn [andb];
    destruct (Z.eqb_spec (gs_distance state) 1) as [-> | N1];
    try destruct (Z.eqb_spec (gs_distance state) 2) as [E2 | N2];
    repeat match goal with
           | |- context [if ?c then _ else _] => destruct c
           end; split; intros H; try discriminate H; auto.
Qed.

Lemma bot_lunges_only_in_range_witness :
  (botMove (getGameState (createGame "g1") P2) (Some "hard") (9 # 10) 0
     = Some "lunge" →
   gs_distance (getGameState (createGame "g1") P2) = 1
   ∨ gs_distance (getGameState (createGame "g1") P2) = 2) ∧
  (botMove (getGameState (createGame "g1") P2) (Some "hard") (9 # 10) 0
     = Some "retreat" →
   gs_distance (getGameState (createGame "g1") P2) ≠ 1 ∧
   gs_distance (getGameState (createGame "g1") P2) ≠ 2).
Proof.
  apply (bot_lunges_only_in_range (getGameState (createGame "g1") P2) "hard"
           (9 # 10) 0). right. reflexivity.
Defined.

(** ** The purge loop of the join handler *)

Lemma purgeStale_run now q st :
  queue st = q →
  ∃ k : nat,
    queue (purgeStale now q st) = drop k q ∧
    Forall (stale now) (take k q) ∧
    (∀ e, head (drop k q) = Some e → ¬ stale now e) ∧
    db_queue (purgeStale now q st) =
      List.filter
        (fun r => negb (existsb (String.eqb (qr_token r))
                          (map q_token (take k q))))
        (db_queue st).
Proof.
  revert st. induction q as [| e q IH]; intros st Hq.
  - exists 0%nat. cbn. split; [done |]. split; [constructor |].
    split; [done |]. induction (db_queue st) as [| r l IHl]; [done |].
    cbn. by rewrite <- IHl.
  - cbn [purgeStale].
    destruct (Z.ltb_spec QUEUE_TIMEOUT_MS (now - q_timestamp e)) as [Hs | Hs].
    + destruct (IH (removeFromQueueDB (q_token e) (with_queue st q)) eq_refl)
        as (k & Hk1 & Hk2 & Hk3 & Hk4).
      exists (S k). cbn [drop take]. split; [exact Hk1 |].
      split; [by constructor |]. split; [exact Hk3 |].
      rewrite Hk4. cbn [removeFromQueueDB with_queue with_db_queue db_queue].
      clear. induction (db_queue st) as [| r l IHl]; [done |].
      cbn [List.filter map existsb].
      destruct (String.eqb (qr_token r) (q_token e)); cbn [negb orb];
        [exact IHl |].
      cbn [List.filter]. destruct (negb _); [by rewrite IHl | exact IHl].
    + exists 0%nat. cbn. split; [done |]. split; [constructor |].
      split; [intros e' [= <-]; unfold stale; lia |].
      clear. induction (db_queue st) as [| r l IHl]; [done |].
      cbn. by rewrite <- IHl.
Qed.

(** X5. The purge loop of the join handler removes exactly the leading
    run of entries that have waited more than five minutes: the queue it
    leaves is a suffix of the old one, every dropped entry was stale, the
    new head (if any) is not, and the queue table loses the rows of the
    dropped tokens and no other.  A stale entry behind a fresh one
    stays. *)
Theorem purge_drops_leading_stale_run (now : Z) (st : Server) :
  ∃ k : nat,
    purgedQueue now st = drop k (queue st) ∧
    Forall (stale now) (take k (queue st)) ∧
    (∀ e, head (purgedQueue now st) = Some e → ¬ stale now e) ∧
    db_queue (purgeStale now (queue st) st) =
      List.filter
        (fun r => negb (existsb (String.eqb (qr_token r))
                          (map q_token (take k (queue st)))))
        (db_queue st).
Proof.
  destruct (purgeStale_run now (queue st) st eq_refl) as (k & H1 & H2 & H3 & H4).
  exists k. unfold purgedQueue. rewrite H1. done.
Qed.

(** ** The rate limiter *)

Lemma rateLimitAll_window (maxRequests windowMs : Z) key ts store c r :
  store !! key = Some (mkRateEntry c r) →
  Forall (fun t => t ≤ r) ts →
  map is_next (rateLimitAll maxRequests windowMs key ts store) =
    replicate (Z.to_nat (maxRequests - c) `min` length ts) true ++
    replicate (length ts - Z.to_nat (maxRequests - c)) false.
Proof.
  revert store c. induction ts as [| t ts IH]; intros store c Hs Hts.
  - cbn. by rewrite Nat.min_0_r.
  - inversion Hts as [| ? ? Ht Hts']; subst.
    cbn [rateLimitAll]. unfold rateLimit. rewrite Hs. cbn [rl_resetTime rl_count].
    destruct (Z.ltb_spec r t) as [| _]; [lia |].
    destruct (Z.ltb_spec maxRequests (c + 1)) as [Hc | Hc];
      cbn [map is_next length];
      rewrite (IH _ (c + 1) (lookup_insert_eq _ _ _) Hts').
    + replace (Z.to_nat (maxRequests - c)) with 0%nat by lia.
      replace (Z.to_nat (maxRequests - (c + 1))) with 0%nat by lia.
      cbn. by rewrite Nat.sub_0_r.
    + replace (Z.to_nat (maxRequests - c))
        with (S (Z.to_nat (maxRequests - (c + 1)))) by lia.
      reflexivity.
Qed.

(** X6. Within one window the limiter lets exactly the first
    [maxRequests] requests of a key through: of [n] requests that arrive
    no later than the window's end (the first one opens the window), the
    first [min n maxRequests] pass and all later ones are answered 429. *)
Theorem limiter_passes_first_max_of_a_window (maxRequests windowMs : Z)
    (key : string) (t0 : Z) (ts : list Z) (store : gmap string RateEntry) :
  1 ≤ maxRequests →
  store !! key = None →
  Forall (fun t => t ≤ t0 + windowMs) ts →
  map is_next (rateLimitAll maxRequests windowMs key (t0 :: ts) store) =
    replicate (Z.to_nat maxRequests `min` S (length ts)) true ++
    replicate (S (length ts) - Z.to_nat maxRequests) false.
Proof.
  intros Hm Hs Hts. cbn [rateLimitAll]. unfold rateLimit at 1. rewrite Hs.
  cbn [map is_next].
  rewrite (rateLimitAll_window _ _ _ _ _ 1 (t0 + windowMs)
             (lookup_insert_eq _ _ _) Hts).
  replace (Z.to_nat maxRequests) with (S (Z.to_nat (maxRequests - 1))) by lia.
  reflexivity.
Qed.

Lemma limiter_passes_first_max_of_a_window_witness :
  map is_next (rateLimitAll 2 60000 "1.2.3.4:/api/join" [0; 10; 20; 60000] ∅)
    = replicate (Z.to_nat 2 `min` 4) true ++ replicate (4 - Z.to_nat 2) false.
Proof.
  apply (limiter_passes_first_max_of_a_window 2 60000 "1.2.3.4:/api/join" 0
           [10; 20; 60000] ∅); [lia | reflexivity |].
  repeat constructor; simpl; lia.
Defined.

(** X7. The periodic cleanup of the limiter's table is invisible to
    callers: a request served after a cleanup gets the verdict, and
    leaves the entry of its key, that it would have without the
    cleanup. *)
Theorem limiter_cleanup_is_transparent (maxRequests windowMs : Z)
    (key : string) (swept now : Z) (store : gmap string RateEntry) :
  swept ≤ now →
  snd (rateLimit maxRequests windowMs key now (rateLimitCleanup swept store))
    = snd (rateLimit maxRequests windowMs key now store) ∧
  fst (rateLimit maxRequests windowMs key now (rateLimitCleanup swept store))
    !! key
    = fst (rateLimit maxRequests windowMs key now store) !! key.
Proof.
  intros Hle. unfold rateLimit, rateLimitCleanup.
  destruct (store !! key) as [e |] eqn:Hs.
  - destruct (decide (rl_resetTime e < swept)) as [Hold | Hkeep].
    + rewrite (proj2 (map_lookup_filter_None _ store key)).
      2:{ right. intros x Hx. rewrite Hs in Hx. injection Hx as <-.
          cbn. by intros []. }
      destruct (Z.ltb_spec (rl_resetTime e) now) as [_ |]; [| lia].
      cbn [fst snd]. by rewrite !lookup_insert_eq.
    + rewrite (map_lookup_filter_Some_2 _ store key e Hs Hkeep).
      destruct (rl_resetTime e <? now); [cbn; by rewrite !lookup_insert_eq |].
      destruct (maxRequests <? _); cbn; by rewrite !lookup_insert_eq.
  - rewrite (proj2 (map_lookup_filter_None _ store key)) by (by left).
    cbn. by rewrite !lookup_insert_eq.
Qed.

Lemma limiter_cleanup_is_transparent_witness :
  snd (rateLimit 60 60000 "k" 70000
         (rateLimitCleanup 65000 {["k" := mkRateEntry 60 60000]}))
    = snd (rateLimit 60 60000 "k" 70000 {["k" := mkRateEntry 60 60000]}) ∧
  fst (rateLimit 60 60000 "k" 70000
         (rateLimitCleanup 65000 {["k" := mkRateEntry 60 60000]})) !! "k"
    = fst (rateLimit 60 60000 "k" 70000 {["k" := mkRateEntry 60 60000]}) !! "k".
Proof.
  apply (limiter_cleanup_is_transparent 60 60000 "k" 65000 70000
           {["k" := mkRateEntry 60 60000]}). lia.
Defined.

(** ** The auto-player clients *)

Lemma pickLoop_key rand sum weights m :
  pickLoop rand sum weights = Some m → m ∈ map fst weights.
Proof.
  revert sum. induction weights as [| [k p] w IH]; intros sum; cbn; [done |].
  destruct (Qle_bool _ _).
  - intros [= <-]. left.
  - intros H. right. by eapply IH.
Qed.

Lemma pick_key weights rand :
  weights ≠ [] → ∃ m, pick weights rand = Some m ∧ m ∈ map fst weights.
Proof.
  intros Hne. unfold pick.
  destruct (pickLoop rand 0 weights) as [m |] eqn:Hp.
  - exists m. split; [done |]. by eapply pickLoop_key.
  - destruct weights as [| [k p] w]; [done |]. exists k. split; [done |]. left.
Qed.

Lemma pick_legal weights rand :
  weights ≠ [] → forallb (fun kv => validateMove (fst kv)) weights = true →
  ∃ m, pick weights rand = Some m ∧ validateMove m = true.
Proof.
  intros Hne Hall. destruct (pick_key weights rand Hne) as (m & Hm & Hin).
  exists m. split; [done |].
  rewrite forallb_forall in Hall.
  apply list_elem_of_In, in_map_iff in Hin as ((k & p) & <- & Hin).
  exact (Hall _ Hin).
Qed.

Ltac pick_cases :=
  repeat match goal with
         | |- context [if ?c then _ else _] => destruct c
         end;
  first [ eexists; split; reflexivity
        | apply pick_legal; [discriminate | reflexivity] ].

(** X8. Both auto-players only ever choose moves the server accepts:
    for every state they may read (fields may be missing), every random
    draw and every deadlock history, [chooseMove] returns one of the four
    moves [validateMove] admits. *)
Theorem clients_choose_legal_moves (state : ClientState)
    (recentDistances : list (option Z)) (rand : Q) :
  (∃ m, chooseMove state rand = Some m ∧ validateMove m = true) ∧
  (∃ m, snd (chooseMove2 state recentDistances rand) = Some m
        ∧ validateMove m = true).
Proof.
  split.
  - unfold chooseMove. pick_cases.
  - unfold chooseMove2.
    destruct (detectDeadlock _ _) as [recent deadlocked]. cbn [snd].
    pick_cases.
Qed.

Lemma lastN_app {A} (l1 l2 : list A) :
  lastN (length l2) (l1 ++ l2) = l2.
Proof.
  unfold lastN. rewrite length_app.
  replace (length l1 + length l2 - length l2)%nat with (length l1) by lia.
  by rewrite drop_app_length.
Qed.

Lemma last_three {A} (l : list A) :
  (3 ≤ length l)%nat → ∃ pre a b c, l = pre ++ [a; b; c].
Proof.
  intros Hl. exists (take (length l - 3) l).
  pose proof (take_drop (length l - 3) l) as Htd.
  pose proof (length_drop l (length l - 3)) as Hd.
  destruct (drop (length l - 3) l) as [| a [| b [| c [| x t]]]];
    cbn in Hd; try lia.
  by exists a, b, c.
Qed.

(** X9. The deadlock detector of the second auto-player answers yes
    exactly when the three distances recorded before the current one all
    equal it (four equal readings in a row), and its history never grows
    beyond ten readings. *)
Theorem deadlock_iff_four_equal_readings (distance : option Z)
    (recentDistances : list (option Z)) :
  (length recentDistances ≤ 10)%nat →
  (length (fst (detectDeadlock distance recentDistances)) ≤ 10)%nat ∧
  (snd (detectDeadlock distance recentDistances) = true ↔
     ∃ pre, recentDistances = pre ++ [distance; distance; distance]).
Proof.
  intros Hlen. unfold detectDeadlock.
  set (recent0 := recentDistances ++ [distance]).
  assert (length recent0 = S (length recentDistances)) as Hl0
    by (subst recent0; rewrite length_app; cbn; lia).
  set (recent := if (10 <? length recent0)%nat then tail recent0 else recent0).
  assert (length recent ≤ 10)%nat as Hl.
  { subst recent. destruct (Nat.ltb_spec 10 (length recent0)); [| lia].
    destruct recent0; cbn in *; lia. }
  split.
  { by destruct (_ <=? _)%nat. }
  destruct (le_lt_dec 3 (length recentDistances)) as [H3 | H3].
  - destruct (last_three _ H3) as (pre & a & b & c & ->).
    assert (∃ pre', recent = pre' ++ [a; b; c; distance]) as [pre' Hr].
    { subst recent recent0. clear. rewrite <- app_assoc. cbn [app].
      destruct (10 <? _)%nat eqn:E; [| by exists pre].
      destruct pre as [| p pre]; [cbn in E; discriminate E |]. by exists pre. }
    rewrite Hr.
    replace (DEADLOCK_THRESHOLD <=? length (pre' ++ [a; b; c; distance]))%nat
      with true
      by (symmetry; apply Nat.leb_le; rewrite length_app;
          unfold DEADLOCK_THRESHOLD; cbn; lia).
    cbn [snd].
    change DEADLOCK_THRESHOLD with (length [a; b; c; distance]).
    rewrite lastN_app. cbn [head default from_option id forallb].
    rewrite !andb_true_iff, !bool_decide_eq_true. split.
    + intros (_ & -> & -> & <- & _). by exists pre.
    + intros [pre2 Heq].
      apply app_inj_2 in Heq as [_ [= -> -> ->]]; [done | done].
  - replace (DEADLOCK_THRESHOLD <=? length recent)%nat with false.
    2:{ symmetry. apply Nat.leb_gt. subst recent.
        destruct (Nat.ltb_spec 10 (length recent0)); [lia |].
        unfold DEADLOCK_THRESHOLD. lia. }
    cbn [snd]. split; [done |]. intros [pre ->].
    rewrite length_app in H3. cbn in H3. lia.
Qed.

Lemma deadlock_iff_four_equal_readings_witness :
  (length (fst (detectDeadlock (Some 1%Z) [Some 1%Z; Some 1%Z; Some 1%Z]))
   ≤ 10)%nat ∧
  (snd (detectDeadlock (Some 1) [Some 1; Some 1; Some 1]) = true ↔
     ∃ pre, [Some 1; Some 1; Some 1] = pre ++ [Some 1; Some 1; Some 1]).
Proof.
  apply (deadlock_iff_four_equal_readings (Some 1) [Some 1; Some 1; Some 1]).
  simpl. lia.
Defined.

(** ** What holds in every reachable state *)














Lemma allSound_clearTimeout st t : allSound st → allSound (clearTimeout t st).
Proof. done. Qed.


Lemma allSound_archiveGame st g now : allSound st → allSound (archiveGame g now st).
Proof. done. Qed.




































(** ** What one resolution does to the server *)

Lemma db_games_saveGameToDB_timer g t now st st' :
  db_games st' = db_games st →
  db_games (saveGameToDB (set_turnTimer g t) now st')
    = db_games (saveGameToDB g now st).
Proof.
  intros E. unfold saveGameToDB. cbn [game_id set_turnTimer]. rewrite E.
  destruct (existsb _ _); reflexivity.
Qed.

Lemma resolveIfReady_effect gid now rnd st g :
  games st !! gid = Some g → phase g = input →
  truthy (m_p1 (moves g)) = true → truthy (m_p2 (moves g)) = true →
  let g1 := fst (resolveTurn (set_turnTimer g None) rnd) in
  let tm := match turnTimer g with
            | Some t => delete t (timeouts st)
            | None => timeouts st
            end in
  let st' := resolveIfReady gid now rnd st in
  players st' = players st ∧ queue st' = queue st ∧
  gameIdCounter st' = gameIdCounter st ∧ db_queue st' = db_queue st ∧
  db_games st' = db_games (saveGameToDB g1 now st) ∧
  match phase g1 with
  | input =>
      games st'
        = <[gid := set_moveWaiters (set_turnTimer g1 (Some (nextTimer st))) []]>
            (games st) ∧
      completedGames st' = completedGames st ∧
      if truthy (botDifficulty g1) then
        timeouts st' = <[S (nextTimer st) := BotFollowUp gid]>
                         (<[nextTimer st := TurnTimeout gid]> tm) ∧
        nextTimer st' = S (S (nextTimer st))
      else
        timeouts st' = <[nextTimer st := TurnTimeout gid]> tm ∧
        nextTimer st' = S (nextTimer st)
  | over =>
      games st' = <[gid := set_moveWaiters g1 []]> (games st) ∧
      completedGames st' = completedGames (archiveGame g1 now st) ∧
      timeouts st' = tm ∧ nextTimer st' = nextTimer st
  end.
Proof.
  intros Hg Hp H1 H2 g1 tm st'. subst st'.
  unfold resolveIfReady. rewrite Hg, Hp, H1, H2. cbn [negb orb].
  subst g1. destruct (resolveTurn (set_turnTimer g None) rnd) as [g1 log].
  cbn [fst].
  set (st1 := match turnTimer g with
              | Some t => clearTimeout t st
              | None => st
              end).
  assert (st1 = with_timeouts st tm (nextTimer st)) as ->.
  { subst st1 tm. destruct (turnTimer g); [done | by destruct st]. }
  cbn [games with_timeouts].
  destruct (phase g1) eqn:Hp1.
  - unfold startTurnTimer, setTimeout.
    cbn [games with_games with_timeouts]. rewrite lookup_insert_eq, Hp1.
    cbn [games with_games with_timeouts timeouts nextTimer].
    unfold the_game. cbn [games with_games]. rewrite lookup_insert_eq.
    cbn [default from_option id].
    cbn [phase set_moveWaiters set_turnTimer botDifficulty is_over negb].
    rewrite Hp1. cbn [is_over negb]. rewrite andb_true_r.
    rewrite !insert_insert_eq.
    destruct (truthy (botDifficulty g1)); cbn;
      rewrite ?games_saveGameToDB, ?queue_saveGameToDB, ?players_saveGameToDB,
        ?timeouts_saveGameToDB, ?nextTimer_saveGameToDB;
      cbn; repeat split;
      try apply saveGameToDB_frame;
      try (by apply db_games_saveGameToDB_timer);
      try (by rewrite insert_insert_eq);
      unfold saveGameToDB; by destruct (existsb _ _).
  - unfold the_game. cbn [games with_games archiveGame with_completedGames].
    rewrite lookup_insert_eq. cbn [default from_option id].
    cbn [phase set_moveWaiters]. rewrite Hp1. cbn [is_over negb].
    rewrite andb_false_r. unfold archiveGame.
    cbn; rewrite ?games_saveGameToDB, ?queue_saveGameToDB,
      ?players_saveGameToDB, ?timeouts_saveGameToDB, ?nextTimer_saveGameToDB;
      cbn; repeat split;
      try apply saveGameToDB_frame;
      try (by rewrite insert_insert_eq);
      unfold saveGameToDB; by destruct (existsb _ _).
Qed.


(** ** The history of finished games stays bounded *)











(** ** Turn timers stay armed *)


























(** ** Ids of matched sessions are never reused *)






















(** ** What the turn timer does when it fires *)

Lemma resolveTurn_set_turnTimer g t rnd :
  fst (resolveTurn (set_turnTimer g t) rnd)
    = set_turnTimer (fst (resolveTurn g rnd)) t.
Proof.
  unfold resolveTurn, checkWin. cbn [fst].
  cbn -[Z.leb Z.ltb Z.add resolveRules turnLimitReached String.append].
  repeat match goal with
         | |- context [if ?c then _ else _] =>
             lazymatch c with
             | context [if _ then _ else _] => fail
             | _ => destruct c
             end
         end; reflexivity.
Qed.

Lemma resolveTurn_moves g rnd :
  moves (fst (resolveTurn g rnd)) = mkMoves None None.
Proof. by destruct (resolveTurn_fields g rnd) as (_ & _ & _ & _ & Hm & _). Qed.

Lemma resolveIfReady_view gid now rnd st g :
  games st !! gid = Some g → phase g = input →
  truthy (m_p1 (moves g)) = true → truthy (m_p2 (moves g)) = true →
  ∃ g',
    games (resolveIfReady gid now rnd st) !! gid = Some g' ∧
    terminalView g' = terminalView (resolved g rnd) ∧
    moves g' = mkMoves None None ∧
    ∀ t, timeouts st !! t = None → (t < nextTimer st)%nat →
         timeouts (resolveIfReady gid now rnd st) !! t = None.
Proof.
  intros Hg Hp H1 H2.
  destruct (resolveIfReady_effect gid now rnd st g Hg Hp H1 H2)
    as (_ & _ & _ & _ & _ & He).
  pose proof (resolveTurn_set_turnTimer g None rnd) as Eg.
  pose proof (resolveTurn_moves g rnd) as Hm.
  unfold resolved.
  assert (∀ t, timeouts st !! t = None →
               match turnTimer g with
               | Some t => delete t (timeouts st)
               | None => timeouts st
               end !! t = None) as Htm.
  { intros t Ht. destruct (turnTimer g); [| done].
    rewrite lookup_delete_None. by right. }
  revert He Eg Hm Htm.
  generalize (match turnTimer g with
              | Some t => delete t (timeouts st)
              | None => timeouts st
              end) as tm.
  generalize (resolveIfReady gid now rnd st) as st'.
  generalize (fst (resolveTurn (set_turnTimer g None) rnd)) as g1.
  generalize (fst (resolveTurn g rnd)) as g2.
  intros g2 g1 st' tm He -> Hm Htm.
  destruct (phase (set_turnTimer g2 None)) eqn:Hp1.
  - destruct He as (Hgs & _ & Hts). rewrite Hgs, lookup_insert_eq.
    eexists. split; [reflexivity |]. split; [done |]. split; [exact Hm |].
    intros t Ht Hlt.
    match type of Hts with
    | if ?c then _ else _ => destruct c
    end; destruct Hts as [-> _];
      rewrite ?lookup_insert_ne by lia; by apply Htm.
  - destruct He as (Hgs & _ & -> & _). rewrite Hgs, lookup_insert_eq.
    eexists. split; [reflexivity |]. split; [done |]. split; [exact Hm |].
    intros t Ht _. by apply Htm.
Qed.

(** X15. When the armed turn timer of a live session fires, the turn is
    resolved exactly as if every player who had not moved had submitted
    "advance": the session then shows what [resolveTurn] makes of the
    pending moves with the gaps filled by advance, no move is pending any
    more, and the fired handle is gone. *)
Theorem expired_timer_plays_advance_for_the_absent (st : Server)
    (gid : string) (g : Game) (t : nat) (now : Z) (rs : Draws) :
  timerArmed st gid g t →
  ∃ g',
    games (fireTimeout t now rs st) !! gid = Some g' ∧
    terminalView g'
      = terminalView
          (resolved (set_moves g (autoFilled (moves g))) (d_hit rs)) ∧
    moves g' = mkMoves None None ∧
    timeouts (fireTimeout t now rs st) !! t = None.
Proof.
  intros (Hg & Hp & Htt & Hto & Hlt).
  unfold fireTimeout. rewrite Hto.
  cbn [runCallback clearTimeout games with_timeouts]. rewrite Hg.
  fold (autoFilled (moves g)).
  set (g0 := set_moves g (autoFilled (moves g))).
  set (st0 := with_games _ _).
  assert (games st0 !! gid = Some g0) as Hg0
    by (subst st0; cbn; apply lookup_insert_eq).
  destruct (resolveIfReady_view gid now (d_hit rs) st0 g0 Hg0 Hp
              (truthy_autofill _) (truthy_autofill _))
    as (g' & Hg' & Hv & Hm & Hto').
  exists g'. split; [exact Hg' |]. split; [exact Hv |]. split; [exact Hm |].
  apply Hto'; [subst st0; cbn; apply lookup_delete_eq | exact Hlt].
Qed.

Lemma expired_timer_plays_advance_for_the_absent_witness :
  ∃ g',
    games (fireTimeout 0 400000 noDraws duelStart) !! "g1" = Some g' ∧
    terminalView g'
      = terminalView
          (resolved (set_moves duelGame (autoFilled (moves duelGame)))
             (d_hit noDraws)) ∧
    moves g' = mkMoves None None ∧
    timeouts (fireTimeout 0 400000 noDraws duelStart) !! 0%nat = None.
Proof.
  apply (expired_timer_plays_advance_for_the_absent duelStart "g1" duelGame
           0%nat 400000 noDraws).
  refine (conj _ (conj _ (conj _ (conj _ _))));
    [vm_compute; reflexivity .. | vm_compute; lia].
Defined.

(** ** Simultaneous moves *)

Lemma validateMove_truthy m : validateMove m = true → truthy (Some m) = true.
Proof.
  intros H. apply validateMove_cases in H as [-> | [-> | [-> | ->]]]; done.
Qed.

Lemma api_move_accepted tok m now rs st info g :
  players st !! tok = Some info → games st !! gameId info = Some g →
  phase g = input → tok ≠ "" → validateMove m = true →
  truthy (get_move (moves g) (playerId info)) = false →
  botDifficulty g = None →
  fst (api_move (mkMoveBody (Some tok) (Some m) false) now rs st) =
    (if truthy (get_move (moves g) match playerId info with
                                   | P1 => P2
                                   | P2 => P1
                                   end)
     then resolveIfReady (gameId info) now (d_hit rs)
     else fun s => s)
      (with_games st
         (<[gameId info :=
              set_moves g (put_move (moves g) (playerId info) (Some m))]>
            (games st))).
Proof.
  intros Hpl Hg Hp Htok Hv Hmine Hbot.
  unfold api_move. cbn [mb_token mb_move mb_wait default from_option id].
  assert (truthy (Some tok) = true) as -> by (by destruct tok).
  rewrite (validateMove_truthy m Hv), Hpl, Hg, Hp, Hmine, Hv.
  cbn [negb]. cbn [botDifficulty set_moves]. rewrite Hbot.
  cbn [truthy andb moves set_moves].
  destruct info as [gid p nm]. cbn [gameId playerId] in *.
  destruct p, (moves g) as [a b];
    cbn [get_move m_p1 m_p2 put_move moves set_moves] in *;
    rewrite (validateMove_truthy m Hv), ?andb_true_r; cbn [andb].
  - by destruct (truthy b).
  - by destruct (truthy a).
Qed.

(** X16. In a matched session the outcome of a turn does not depend on
    who submits first: when both players of a session with no pending
    move submit legal moves, one after the other, the server ends in the
    same state whichever of the two requests it serves first. *)
Theorem turn_outcome_independent_of_submission_order (st : Server)
    (gid tok1 tok2 m1 m2 : string) (n1 n2 : option string) (g : Game)
    (now0 now0' now : Z) (rs0 rs0' rs : Draws) :
  games st !! gid = Some g → phase g = input →
  moves g = mkMoves None None → botDifficulty g = None →
  players st !! tok1 = Some (mkPlayerInfo gid P1 n1) →
  players st !! tok2 = Some (mkPlayerInfo gid P2 n2) →
  tok1 ≠ "" → tok2 ≠ "" →
  validateMove m1 = true → validateMove m2 = true →
  step (humanMove tok2 m2) now rs (step (humanMove tok1 m1) now0 rs0 st)
  = step (humanMove tok1 m1) now rs (step (humanMove tok2 m2) now0' rs0' st).
Proof.
  intros Hg Hp Hm Hbot Hp1 Hp2 Ht1 Ht2 Hv1 Hv2.
  unfold humanMove. cbn [step].
  rewrite (api_move_accepted tok1 m1 now0 rs0 st _ g Hp1 Hg Hp Ht1 Hv1)
    by (try done; by rewrite Hm).
  rewrite (api_move_accepted tok2 m2 now0' rs0' st _ g Hp2 Hg Hp Ht2 Hv2)
    by (try done; by rewrite Hm).
  cbn [gameId playerId]. rewrite Hm. cbn [get_move m_p1 m_p2 truthy put_move].
  set (ga := set_moves g (mkMoves (Some m1) None)).
  set (gb := set_moves g (mkMoves None (Some m2))).
  rewrite (api_move_accepted tok2 m2 now rs _ (mkPlayerInfo gid P2 n2) ga);
    [| done | cbn; apply lookup_insert_eq | done | done | done | done | done].
  rewrite (api_move_accepted tok1 m1 now rs _ (mkPlayerInfo gid P1 n1) gb);
    [| done | cbn; apply lookup_insert_eq | done | done | done | done | done].
  cbn [gameId playerId get_move moves set_moves m_p1 m_p2 put_move ga gb].
  rewrite !(validateMove_truthy _ Hv1), !(validateMove_truthy _ Hv2).
  cbn [games with_games]. rewrite !insert_insert_eq. reflexivity.
Qed.

Lemma turn_outcome_independent_of_submission_order_witness :
  step (humanMove "tokBob" "lunge") 3000 noDraws
    (step (humanMove "tokAnn" "advance") 2500 noDraws duelStart)
  = step (humanMove "tokAnn" "advance") 3000 noDraws
      (step (humanMove "tokBob" "lunge") 2700 noDraws duelStart).
Proof.
  apply (turn_outcome_independent_of_submission_order duelStart "g1" "tokAnn"
           "tokBob" "advance" "lunge" (Some "Ann") (Some "Bob") duelGame
           2500 2700 3000 noDraws noDraws noDraws);
    first [ vm_compute; reflexivity | discriminate ].
Defined.

(** ** The database mirrors the registry; what a restart restores *)





























(** ** Practice sessions answer at once *)

(** X18. In a practice session the player never waits for the bot: a
    legal move by the human side of a live practice session (bot on the
    second side, random draw in [0,1)) is answered in the same request
    with the resolved turn, and the registered session has advanced by
    exactly one turn. *)
Theorem practice_move_resolves_at_once (st : Server) (gid tok m d : string)
    (nm : option string) (g : Game) (wait : bool) (now : Z) (rs : Draws) :
  games st !! gid = Some g → phase g = input →
  botDifficulty g = Some d → d ≠ "" → botSide g = Some P2 →
  players st !! tok = Some (mkPlayerInfo gid P1 nm) → tok ≠ "" →
  validateMove m = true → truthy (m_p1 (moves g)) = false →
  (0 <= d_bot1 rs)%Q → (d_bot1 rs < 1)%Q →
  ∃ g' status state sj w,
    snd (api_move (mkMoveBody (Some tok) (Some m) wait) now rs st)
      = RTurn status (turn g + 1) state sj w ∧
    games (fst (api_move (mkMoveBody (Some tok) (Some m) wait) now rs st)) !! gid
      = Some g' ∧
    turn g' = turn g + 1.
Proof.
  intros Hg Hp Hbd Hd Hbs Hpl Htok Hv Hmine H0 H1.
  unfold api_move. cbn [mb_token mb_move mb_wait default from_option id].
  assert (truthy (Some tok) = true) as -> by (by destruct tok).
  rewrite (validateMove_truthy m Hv), Hpl.
  cbn [negb gameId playerId]. rewrite Hg, Hp.
  cbn [get_move]. rewrite Hmine, Hv. cbn [negb].
  set (g1 := set_moves g (put_move (moves g) P1 (Some m))).
  assert (truthy (botDifficulty g1) = true) as ->
    by (subst g1; cbn; rewrite Hbd; by destruct d).
  assert (botSideOrP2 g1 = P2) as ->
    by (subst g1; unfold botSideOrP2; cbn; by rewrite Hbs).
  cbn [andb get_move put_move].
  match goal with |- context [with_games st (<[gid := ?x]> _)] =>
    set (g2 := x)
  end.
  assert (phase g2 = input ∧ turn g2 = turn g ∧
          truthy (m_p1 (moves g2)) = true ∧ truthy (m_p2 (moves g2)) = true)
    as (Hp2 & Ht2 & M1 & M2).
  { subst g2 g1. cbn [moves set_moves put_move m_p1 m_p2].
    destruct (truthy (m_p2 (moves g))) eqn:E; cbn [negb].
    - cbn [phase turn moves set_moves m_p1 m_p2].
      by rewrite (validateMove_truthy m Hv), E.
    - destruct (botMove_legal
                  (getGameState
                     (set_moves g (mkMoves (Some m) (m_p2 (moves g)))) P2)
                  (Some d) (d_bot1 rs) (d_bot2 rs) H0 H1) as (mb & Hmb & Hvb).
      cbn [botDifficulty set_moves]. rewrite Hbd, Hmb.
      cbn [phase turn moves set_moves m_p1 m_p2].
      by rewrite (validateMove_truthy m Hv), (validateMove_truthy mb Hvb). }
  clearbody g2. rewrite M1, M2. cbn [andb fst snd].
  set (st1 := with_games st (<[gid := g2]> (games st))).
  destruct (resolveIfReady_ready gid now (d_hit rs) st1 g2)
    as (g' & Hg' & Ht' & _); [subst st1; cbn; apply lookup_insert_eq | done ..|].
  unfold the_game. rewrite Hg'. cbn [default from_option id].
  exists g'. eexists _, _, _, _. rewrite Ht', Ht2. done.
Qed.

Lemma practice_move_resolves_at_once_witness :
  ∃ g' status state sj w,
    snd (api_move (mkMoveBody (Some "tokA") (Some "advance") false) 1500
           noDraws beforeRestart)
      = RTurn status (turn practiceGame + 1) state sj w ∧
    games (fst (api_move (mkMoveBody (Some "tokA") (Some "advance") false) 1500
                  noDraws beforeRestart)) !! "bot_1"
      = Some g' ∧
    turn g' = turn practiceGame + 1.
Proof.
  apply (practice_move_resolves_at_once beforeRestart "bot_1" "tokA" "advance"
           "medium" (Some "Player") practiceGame false 1500 noDraws);
    first [ vm_compute; reflexivity | discriminate ].
Defined.

(** ** A committed move stays hidden *)

Lemma views_ignore_moves g m pid :
  getGameState (set_moves g m) pid = getGameState g pid ∧
  compactState (set_moves g m) pid = compactState g pid.
Proof. split; reflexivity. Qed.

(** X19. Submitting first gives nothing away.  In a matched session in
    which neither player has moved yet, after one player has submitted a
    legal move the state endpoint answers the other player exactly as it
    did before, whatever move was submitted. *)
Theorem committed_move_is_hidden_from_opponent (st : Server)
    (gid tokA tokB m : string) (nA nB : option string) (pA pB : PlayerId)
    (g : Game) (now : Z) (rs : Draws) :
  games st !! gid = Some g → phase g = input →
  moves g = mkMoves None None → botDifficulty g = None →
  players st !! tokA = Some (mkPlayerInfo gid pA nA) →
  players st !! tokB = Some (mkPlayerInfo gid pB nB) →
  pA ≠ pB → tokB ≠ "" → validateMove m = true →
  api_state tokA (step (humanMove tokB m) now rs st) = api_state tokA st.
Proof.
  intros Hg Hp Hm Hbot HA HB Hne Htok Hv.
  unfold humanMove. cbn [step].
  rewrite (api_move_accepted tokB m now rs st _ g HB Hg Hp Htok Hv)
    by (try done; rewrite Hm; by destruct pB).
  cbn [gameId playerId]. rewrite Hm.
  assert (truthy (get_move (mkMoves None None)
                    match pB with P1 => P2 | P2 => P1 end) = false) as ->
    by (by destruct pB).
  unfold api_state. cbn [players with_games games]. rewrite HA.
  cbn [gameId playerId]. rewrite lookup_insert_eq, Hg.
  destruct (views_ignore_moves g (put_move (mkMoves None None) pB (Some m)) pA)
    as [-> ->].
  cbn [phase turn winner moves set_moves]. rewrite Hm.
  by destruct pA, pB.
Qed.

Lemma committed_move_is_hidden_from_opponent_witness :
  api_state "tokAnn" (step (humanMove "tokBob" "lunge") 3000 noDraws duelStart)
  = api_state "tokAnn" duelStart.
Proof.
  apply (committed_move_is_hidden_from_opponent duelStart "g1" "tokAnn"
           "tokBob" "lunge" (Some "Ann") (Some "Bob") P1 P2 duelGame 3000
           noDraws);
    first [ vm_compute; reflexivity | discriminate ].
Defined.

(** ** One exhibition at a time *)
















